(** * QKD-seeded frequency hopping: the sifting and verification protocol

    A shallow embedding of [utils.py], [qkd_sender.py] and [qkd_receiver.py]
    (the "Corrected Protocol v2" roles), followed by the properties of the
    sifting, verification and seed/pattern derivation steps.

    Conventions of the embedding:
    - a Python [int] is a [Z]; list positions are [Z] as well, read through
      [py_getitem], which implements Python's negative indices;
    - a Python [str] is a [string]; its characters are code points below 256,
      for which [int(c)] succeeds exactly on ['0'..'9'];
    - a Python [float] is a binary64 [float] of the kernel;
    - a [dict] keyed by photon index is a [gmap Z Z];
    - an exception is a value of [exn], a fallible step returns a [result];
    - the [random] module is the interface [PyRandom]: the generator state is
      passed explicitly, the process-wide generator being one such state. *)

From Stdlib Require Import ZArith Lia List String Ascii DecimalString Floats.
From Stdlib Require Uint63.
From stdpp Require Import base list gmap sorting strings.

Open Scope Z_scope.

(** ** Python values and primitives *)

Module Py.

Inductive exn_kind :=
  | ValueError
  | IndexError
  | TypeError
  | ConnectionAbortedError.

Record exn := Exn { kind : exn_kind; reason : string }.

Inductive result (A : Type) :=
  | Ok (a : A)
  | Raise (e : exn).
Arguments Ok {A} a.
Arguments Raise {A} e.

Definition bind {A B} (r : result A) (k : A → result B) : result B :=
  match r with
  | Ok a => k a
  | Raise e => Raise e
  end.

Definition is_ok {A} (r : result A) : bool :=
  match r with Ok _ => true | Raise _ => false end.

(** [len(l)] *)
Definition len {A} (l : list A) : Z := Z.of_nat (length l).

(** [range(n)]: empty when [n <= 0]. *)
Definition range (n : Z) : list Z := Z.of_nat <$> seq 0 (Z.to_nat n).

(** [l[i]]: a negative [i] counts from the end; out of range is [None]
    (Python raises [IndexError]). *)
Definition py_getitem {A} (l : list A) (i : Z) : option A :=
  if 0 <=? i then l !! Z.to_nat i
  else if - len l <=? i then l !! Z.to_nat (len l + i)
  else None.

(** [l[:k]]: a negative [k] drops the last [-k] elements. *)
Definition py_slice_to {A} (l : list A) (k : Z) : list A :=
  if 0 <=? k then take (Z.to_nat k) l
  else take (Z.to_nat (len l + k)) l.

(** [str(n)] for an [int]. *)
Definition str_of_int (n : Z) : string := NilZero.string_of_int (Z.to_int n).

(** [sep.join(map(str, l))] *)
Definition join_ints (sep : string) (l : list Z) : string :=
  String.concat sep (str_of_int <$> l).

(** [int(c)] for a one-character string: the digit's value, or [None]
    (Python raises [ValueError]). *)
Definition int_of_char (c : ascii) : option Z :=
  let n := Z.of_nat (nat_of_ascii c) in
  if (48 <=? n) && (n <=? 57) then Some (n - 48) else None.

(** [s.encode()]: the characters are below 128 wherever the program calls it
    (decimal digits and the minus sign), so UTF-8 is the identity. *)
Definition encode (s : string) : list Z :=
  (λ c, Z.of_nat (nat_of_ascii c)) <$> list_ascii_of_string s.

(** [int.from_bytes(bs, 'big')] *)
Definition int_from_bytes_big (bs : list Z) : Z :=
  fold_left (λ acc b, acc * 256 + b) bs 0.

(** [float(n)] for a count [0 <= n < 2^53], where the conversion is exact. *)
Definition float_of_int (n : Z) : float := PrimFloat.of_uint63 (Uint63.of_Z n).

(** [m / n] on two counts: true division, correctly rounded. *)
Definition truediv (m n : Z) : float :=
  PrimFloat.div (float_of_int m) (float_of_int n).

End Py.
Import Py.

(** ** [hashlib.sha256] (FIPS 180-4), on bytes given as integers *)

Module Sha256.

Definition w32 (x : Z) : Z := x mod 2 ^ 32.
Definition add32 (x y : Z) : Z := w32 (x + y).
Definition rotr (n x : Z) : Z :=
  Z.lor (Z.shiftr x n) (w32 (Z.shiftl x (32 - n))).
Definition shr (n x : Z) : Z := Z.shiftr x n.
Definition not32 (x : Z) : Z := 2 ^ 32 - 1 - x.

Definition Ch (x y z : Z) : Z := Z.lxor (Z.land x y) (Z.land (not32 x) z).
Definition Maj (x y z : Z) : Z :=
  Z.lxor (Z.lxor (Z.land x y) (Z.land x z)) (Z.land y z).
Definition Sigma0 (x : Z) : Z := Z.lxor (Z.lxor (rotr 2 x) (rotr 13 x)) (rotr 22 x).
Definition Sigma1 (x : Z) : Z := Z.lxor (Z.lxor (rotr 6 x) (rotr 11 x)) (rotr 25 x).
Definition sigma0 (x : Z) : Z := Z.lxor (Z.lxor (rotr 7 x) (rotr 18 x)) (shr 3 x).
Definition sigma1 (x : Z) : Z := Z.lxor (Z.lxor (rotr 17 x) (rotr 19 x)) (shr 10 x).

(** The constants are the first 32 bits of the fractional parts of the cube
    roots (for the rounds) and of the square roots (for the initial hash) of
    the first primes. *)
Definition primes : list Z :=
  [2; 3; 5; 7; 11; 13; 17; 19; 23; 29; 31; 37; 41; 43; 47; 53; 59; 61; 67; 71;
   73; 79; 83; 89; 97; 101; 103; 107; 109; 113; 127; 131; 137; 139; 149; 151;
   157; 163; 167; 173; 179; 181; 191; 193; 197; 199; 211; 223; 227; 229; 233;
   239; 241; 251; 257; 263; 269; 271; 277; 281; 283; 293; 307; 311].

(** The integer cube root of [n < 2 ^ (3 * bits)], one bit at a time. *)
Fixpoint cube_root (bits : nat) (n r : Z) : Z :=
  match bits with
  | O => r
  | S b =>
      let r' := r + 2 ^ Z.of_nat b in
      cube_root b n (if r' * r' * r' <=? n then r' else r)
  end.

Definition round_constants : list Z :=
  Eval vm_compute in (λ p, w32 (cube_root 36 (p * 2 ^ 96) 0)) <$> primes.

Definition initial_hash : list Z :=
  Eval vm_compute in (λ p, w32 (Z.sqrt (p * 2 ^ 64))) <$> take 8 primes.

(** Big-endian bytes of the low [8 * n] bits of [x]. *)
Fixpoint be_bytes (n : nat) (x : Z) : list Z :=
  match n with
  | O => []
  | S n' => be_bytes n' (x / 256) ++ [x mod 256]
  end.

(** Message, then [0x80], zeros up to 56 mod 64, the bit length on 8 bytes. *)
Definition pad (msg : list Z) : list Z :=
  let l := len msg in
  let zeros := Z.to_nat ((55 - l) mod 64) in
  msg ++ [0x80] ++ replicate zeros 0 ++ be_bytes 8 (8 * l).

Fixpoint words (fuel : nat) (bs : list Z) : list Z :=
  match fuel, bs with
  | S fuel', b0 :: b1 :: b2 :: b3 :: rest =>
      int_from_bytes_big [b0; b1; b2; b3] :: words fuel' rest
  | _, _ => []
  end.

Fixpoint blocks (fuel : nat) (ws : list Z) : list (list Z) :=
  match fuel, ws with
  | S fuel', _ :: _ => take 16 ws :: blocks fuel' (drop 16 ws)
  | _, _ => []
  end.

(** The message schedule, most recent word first. *)
Fixpoint extend (n : nat) (rev_w : list Z) : list Z :=
  match n with
  | O => rev_w
  | S n' =>
      let at_ k := default 0 (rev_w !! k) in
      let w := add32 (add32 (sigma1 (at_ 1%nat)) (at_ 6%nat))
                     (add32 (sigma0 (at_ 14%nat)) (at_ 15%nat)) in
      extend n' (w :: rev_w)
  end.

Definition schedule (block : list Z) : list Z := rev (extend 48 (rev block)).

Record regs := Regs { ra : Z; rb : Z; rc : Z; rd : Z; re : Z; rf : Z; rg : Z; rh : Z }.

Definition round (r : regs) (kw : Z * Z) : regs :=
  let t1 := add32 (add32 (add32 (rh r) (Sigma1 (re r))) (Ch (re r) (rf r) (rg r)))
                  (add32 (fst kw) (snd kw)) in
  let t2 := add32 (Sigma0 (ra r)) (Maj (ra r) (rb r) (rc r)) in
  Regs (add32 t1 t2) (ra r) (rb r) (rc r) (add32 (rd r) t1) (re r) (rf r) (rg r).

Definition regs_of (h : list Z) : regs :=
  let at_ k := default 0 (h !! k) in
  Regs (at_ 0%nat) (at_ 1%nat) (at_ 2%nat) (at_ 3%nat)
       (at_ 4%nat) (at_ 5%nat) (at_ 6%nat) (at_ 7%nat).

Definition list_of (r : regs) : list Z :=
  [ra r; rb r; rc r; rd r; re r; rf r; rg r; rh r].

Definition compress (h : list Z) (block : list Z) : list Z :=
  let r := fold_left round (zip round_constants (schedule block)) (regs_of h) in
  zip_with add32 h (list_of r).

Definition sha256 (msg : list Z) : list Z :=
  let bs := pad msg in
  let ws := words (length bs) bs in
  let h := fold_left compress (blocks (length ws) ws) initial_hash in
  h ≫= be_bytes 4.

End Sha256.

(** ** The [random] module

    [random.Random] is library code: a generator is any state type with the
    operations below.  [rnd_randbelow n] is [_randbelow(n)], the draw behind
    [randint] and [choice]; [rnd_random] is [random()]; [rnd_sample n k] is
    [sample(range(n), k)] for [0 <= k <= n], a selection without
    replacement. *)

Class PyRandom (G : Type) := {
  rnd_seed : Z → G;
  rnd_randbelow : Z → G → Z * G;
  rnd_random : G → float * G;
  rnd_sample : Z → Z → G → list Z * G;
  rnd_randbelow_range n g : 0 < n → 0 ≤ (rnd_randbelow n g).1 < n;
  rnd_sample_length n k g :
    0 ≤ k ≤ n → length (rnd_sample n k g).1 = Z.to_nat k;
  rnd_sample_NoDup n k g : 0 ≤ k ≤ n → NoDup (rnd_sample n k g).1;
  rnd_sample_range n k g x :
    0 ≤ k ≤ n → x ∈ (rnd_sample n k g).1 → 0 ≤ x < n
}.

Module Random.
Section Random.
Context {G : Type} `{PyRandom G}.

(** [randint(a, b)], for [a <= b]. *)
Definition randint (a b : Z) (g : G) : Z * G :=
  let '(r, g') := rnd_randbelow (b - a + 1) g in (a + r, g').

(** [choice(seq)]: [IndexError] on an empty sequence. *)
Definition choice {A} (seq : list A) (g : G) : result A * G :=
  if bool_decide (seq = []) then
    (Raise (Exn IndexError "Cannot choose from an empty sequence"), g)
  else
    let '(i, g') := rnd_randbelow (len seq) g in
    match py_getitem seq i with
    | Some x => (Ok x, g')
    | None => (Raise (Exn IndexError "list index out of range"), g')
    end.

(** [sample(range(n), k)]: [ValueError] unless [0 <= k <= n]. *)
Definition sample_range (n k : Z) (g : G) : result (list Z) * G :=
  if (0 <=? k) && (k <=? n) then
    let '(l, g') := rnd_sample n k g in (Ok l, g')
  else (Raise (Exn ValueError "Sample larger than population or is negative"), g).

End Random.
End Random.

(** ** utils.py *)

Module Utils.
Section Utils.
Context {G : Type} `{PyRandom G}.

(** [derive_seed_from_key(key)], run with the process-wide generator [g]. *)
Definition derive_seed_from_key (key : list Z) (g : G) : Z * G :=
  if bool_decide (key = []) || (len key <? 8) then
    Random.randint 0 (Z.shiftl 1 32 - 1) g
  else
    let key_str := join_ints "" key in
    let seed_bytes := Sha256.sha256 (encode key_str) in
    let seed := int_from_bytes_big (take 4 seed_bytes) in
    (seed, g).

(** [[local_random.choice(frequencies) for _ in range(length)]] *)
Fixpoint choose_each {V} (n : nat) (frequencies : list V) (local_random : G)
  : result (list V) :=
  match n with
  | O => Ok []
  | S n' =>
      let '(r, local_random') := Random.choice frequencies local_random in
      bind r (λ x,
        bind (choose_each n' frequencies local_random') (λ rest, Ok (x :: rest)))
  end.

(** [generate_hopping_pattern(seed, length, frequencies)], run with the
    process-wide generator [g]. *)
Definition generate_hopping_pattern {V} (seed length : Z) (frequencies : list V)
    (g : G) : result (list V) * G :=
  if bool_decide (frequencies = []) then (Ok [], g)
  else if length <=? 0 then (Ok [], g)
  else
    let local_random := rnd_seed seed in
    (choose_each (Z.to_nat length) frequencies local_random, g).

(** [sift_key_indices(own_bases, other_bases)] (unused by the v2 roles) *)
Definition sift_key_indices (own_bases other_bases : list Z) : list Z :=
  let count := Z.min (len own_bases) (len other_bases) in
  filter (λ i, py_getitem own_bases i = py_getitem other_bases i) (range count).

End Utils.
End Utils.

(** ** The session: channels, statistics and the monad of a role

    A role runs against a [world]: the process-wide generator, the public
    messages still to arrive, what it has sent on the public and the quantum
    lane, and the entries of [stats] the roles write.  Sends always succeed
    (socket failures are not modelled); a receive on an exhausted [inbox]
    returns [(None, None)], as a closed or timed-out socket does. *)

Module Session.

Record message := Msg { tag : string; payload : string }.

Inductive status :=
  | NotStarted
  | Success
  | QBERFail
  | KeyTooShort
  | AbortedByPeer (content : string)
  | Error (e : exn).

Record stats := Stats {
  st_status : status;
  qber_check_bits : Z;
  qber_mismatches : Z;
  qber_estimate : float;
  key_after_qber : Z
}.

Definition initial_stats : stats := Stats NotStarted 0 0 (-1)%float 0.

Section World.
Context {G : Type}.

Record world := World {
  rng : G;
  inbox : list (option (string * string));
  outbox : list message;
  quantum_out : list (Z * Z);
  stat : stats
}.

Definition M (A : Type) : Type := world → result A * world.

Definition ret {A} (a : A) : M A := λ w, (Ok a, w).

Definition raise {A} (k : exn_kind) (msg : string) : M A :=
  λ w, (Raise (Exn k msg), w).

Definition lift {A} (r : result A) : M A := λ w, (r, w).

Definition with_rng {A} (f : G → A * G) : M A :=
  λ w, let '(a, g') := f (rng w) in
       (Ok a, World g' (inbox w) (outbox w) (quantum_out w) (stat w)).

(** [public_ch.send(data_type, data)] *)
Definition send (data_type data : string) : M unit :=
  λ w, (Ok tt, World (rng w) (inbox w) (outbox w ++ [Msg data_type data])
                     (quantum_out w) (stat w)).

(** [quantum_ch.send_photon(basis, bit)] *)
Definition send_photon (basis bit : Z) : M unit :=
  λ w, (Ok tt, World (rng w) (inbox w) (outbox w)
                     (quantum_out w ++ [(basis, bit)]) (stat w)).

(** [public_ch.receive()] *)
Definition receive : M (option (string * string)) :=
  λ w, match inbox w with
       | [] => (Ok None, w)
       | m :: rest => (Ok m, World (rng w) rest (outbox w) (quantum_out w) (stat w))
       end.

Definition update_stats (f : stats → stats) : M unit :=
  λ w, (Ok tt, World (rng w) (inbox w) (outbox w) (quantum_out w) (f (stat w))).

Definition set_status (s : status) : stats → stats :=
  λ t, Stats s (qber_check_bits t) (qber_mismatches t) (qber_estimate t)
             (key_after_qber t).
Definition set_check_bits (n : Z) : stats → stats :=
  λ t, Stats (st_status t) n (qber_mismatches t) (qber_estimate t)
             (key_after_qber t).
Definition set_qber (m : Z) (q : float) : stats → stats :=
  λ t, Stats (st_status t) (qber_check_bits t) m q (key_after_qber t).
Definition set_key_after_qber (n : Z) : stats → stats :=
  λ t, Stats (st_status t) (qber_check_bits t) (qber_mismatches t)
             (qber_estimate t) n.

#[global] Instance M_ret : MRet M := @ret.
#[global] Instance M_bind : MBind M := λ A B k m w,
  match m w with
  | (Ok a, w') => k a w'
  | (Raise e, w') => (Raise e, w')
  end.

(** The three tests that follow every [public_ch.receive()] of a role:
    disconnect, a peer's ABORT, any other type than the expected one. *)
Definition expect_message (peer stage expected : string) : M string :=
  m ← receive;
  match m with
  | None =>
      raise ConnectionAbortedError (peer +:+ " disconnected (" +:+ stage +:+ ")")
  | Some (data_type, content) =>
      if bool_decide (data_type = "") then
        raise ConnectionAbortedError (peer +:+ " disconnected (" +:+ stage +:+ ")")
      else if bool_decide (data_type = "ABORT") then
        raise ValueError (peer +:+ " aborted: " +:+ content)
      else if bool_decide (data_type ≠ expected) then
        raise TypeError ("Expected " +:+ expected +:+ " from " +:+ peer +:+
                         ", got " +:+ data_type)
      else mret content
  end.

(** The [except] clause of a role: the status records the error, the peer is
    sent an ABORT, the role returns [(None, None)]. *)
Definition on_error {A} (who : string) (m : M (option A)) : M (option A) :=
  λ w, match m w with
       | (Ok r, w') => (Ok r, w')
       | (Raise e, w') =>
           (update_stats (set_status (Error e));;
            send "ABORT" (who +:+ " Error: " +:+ reason e);;
            mret None) w'
       end.

End World.
Arguments world G : clear implicits.
Arguments M G A : clear implicits.

(** A loop that appends at most one element per iteration, and list
    comprehensions with a filter: the elements in order, or the first
    exception raised. *)
Fixpoint collect {A B} (body : A → result (option B)) (xs : list A)
  : result (list B) :=
  match xs with
  | [] => Ok []
  | x :: xs' =>
      match body x with
      | Raise e => Raise e
      | Ok o =>
          match collect body xs' with
          | Raise e => Raise e
          | Ok rest => Ok (match o with Some b => b :: rest | None => rest end)
          end
      end
  end.

(** [s[i]] and [len(s)] on a string. *)
Definition str_getitem (s : string) (i : Z) : option ascii :=
  py_getitem (list_ascii_of_string s) i.
Definition str_len (s : string) : Z := len (list_ascii_of_string s).

(** [[sifted_key[i] for i in range(len(sifted_key)) if i not in check]]:
    the final-key comprehension, the same in both roles. *)
Definition final_key_bits (sifted_key : list Z) (check_indices : list Z)
  : result (list Z) :=
  collect (λ i,
    if bool_decide (i ∉ check_indices) then
      match py_getitem sifted_key i with
      | Some b => Ok (Some b)
      | None => Raise (Exn IndexError "list index out of range")
      end
    else Ok None) (range (len sifted_key)).

End Session.
Import Session.

(** ** qkd_sender.py *)

Module Sender.

Record args := Args {
  photon_count : Z;
  key_length : Z;
  loss_rate : float;
  qber_threshold : float
}.

(** What the transmit loop keeps of the photons that were not lost. *)
Record sent_state := SentState {
  photons_sent_indices : list Z;
  sender_bits_sent : gmap Z Z;
  sender_bases_sent : gmap Z Z
}.

(** One iteration of the mismatch count: which branch it took. *)
Inductive check_event :=
  | Agree          (* the disclosed bit equals the sender's *)
  | Differ         (* the disclosed bit differs *)
  | BadChar        (* [int(...)] raised ValueError: assumed mismatch *)
  | PastEnd        (* the payload was indexed out of range: assumed mismatch *)
  | BadIndex.      (* the sampled index is not below [len(sifted_key)] *)

Definition is_mismatch (e : check_event) : bool :=
  match e with Agree => false | _ => true end.

(** Step e: the indices into Bob's list where the bases matched. *)
Definition sift (st : sent_state) (bob_bases_list : list Z) : result (list Z) :=
  let photons_sent_count := len (photons_sent_indices st) in
  let comparison_count := Z.min (len bob_bases_list) photons_sent_count in
  collect (λ j,
    match py_getitem (photons_sent_indices st) j with
    | None => Raise (Exn IndexError "list index out of range")
    | Some original_index =>
        match sender_bases_sent st !! original_index with
        | Some alice_basis =>
            match py_getitem bob_bases_list j with
            | None => Raise (Exn IndexError "list index out of range")
            | Some bob_basis =>
                Ok (if bool_decide (alice_basis = bob_basis) then Some j else None)
            end
        | None => Ok None
        end
    end) (range comparison_count).

(** Step g: Alice's sifted key. *)
Definition sifted_sender_key (st : sent_state) (match_indices : list Z)
  : result (list Z) :=
  collect (λ rel_idx,
    if rel_idx <? len (photons_sent_indices st) then
      match py_getitem (photons_sent_indices st) rel_idx with
      | None => Raise (Exn IndexError "list index out of range")
      | Some original_index => Ok (sender_bits_sent st !! original_index)
      end
    else Ok None) match_indices.

(** Step h, lines 131-133: the size of the verification sample. *)
Definition choose_check_len (sifted_len key_length : Z) : result Z :=
  let check_len := Z.max 1 (Z.min (sifted_len / 4) (key_length * 2)) in
  let check_len :=
    if sifted_len <=? check_len then Z.max 1 (sifted_len / 2) else check_len in
  if sifted_len <=? check_len then
    Raise (Exn ValueError ("Insufficient sifted bits (" +:+ str_of_int sifted_len
                           +:+ ") for QBER check."))
  else Ok check_len.

(** Step j: the branch taken for the [i]-th sampled index. *)
Definition check_event_at (sifted_key : list Z) (check_bits : string)
    (i rel_sift_idx : Z) : result check_event :=
  if rel_sift_idx <? len sifted_key then
    match py_getitem sifted_key rel_sift_idx with
    | None => Raise (Exn IndexError "list index out of range")
    | Some alice_bit_at_check =>
        match str_getitem check_bits i with
        | None => Ok PastEnd
        | Some c =>
            match int_of_char c with
            | None => Ok BadChar
            | Some bob_bit_at_check =>
                Ok (if bool_decide (alice_bit_at_check ≠ bob_bit_at_check)
                    then Differ else Agree)
            end
        end
    end
  else Ok BadIndex.

(** Step j: the loop over [enumerate(check_indices)], from position [i]. *)
Fixpoint check_events (sifted_key : list Z) (check_bits : string)
    (i : Z) (check_indices : list Z) : result (list check_event) :=
  match check_indices with
  | [] => Ok []
  | rel_sift_idx :: rest =>
      bind (check_event_at sifted_key check_bits i rel_sift_idx) (λ e,
        bind (check_events sifted_key check_bits (i + 1) rest) (λ es,
          Ok (e :: es)))
  end.

Definition count_mismatches (es : list check_event) : Z :=
  len (filter (λ e, is_mismatch e = true) es).

(** [mismatches / len(check_indices) if check_indices else 0] *)
Definition qber_of (mismatches : Z) (check_indices : list Z) : float :=
  if bool_decide (check_indices = []) then 0%float
  else truediv mismatches (len check_indices).

Section Role.
Context {G : Type} `{PyRandom G}.

Fixpoint randints (n : nat) (g : G) : list Z * G :=
  match n with
  | O => ([], g)
  | S n' =>
      let '(x, g1) := Random.randint 0 1 g in
      let '(xs, g2) := randints n' g1 in
      (x :: xs, g2)
  end.

(** [prepare_qubits(count)]: the bits, then the bases. *)
Definition prepare_qubits (count : Z) (g : G) : (list Z * list Z) * G :=
  let '(bits, g1) := randints (Z.to_nat count) g in
  let '(bases, g2) := randints (Z.to_nat count) g1 in
  ((bits, bases), g2).

(** Step b, one iteration: the photon is sent unless it is lost. *)
Definition send_one (sender_bits_all sender_bases_all : list Z)
    (loss_rate : float) (st : sent_state) (i : Z) : M G sent_state :=
  r ← with_rng rnd_random;
  if PrimFloat.leb loss_rate r then
    match py_getitem sender_bases_all i, py_getitem sender_bits_all i with
    | Some basis, Some bit =>
        send_photon basis bit;;
        mret (SentState (photons_sent_indices st ++ [i])
                        (<[i := bit]> (sender_bits_sent st))
                        (<[i := basis]> (sender_bases_sent st)))
    | _, _ => raise IndexError "list index out of range"
    end
  else mret st.

Fixpoint send_loop (sender_bits_all sender_bases_all : list Z)
    (loss_rate : float) (st : sent_state) (is_ : list Z) : M G sent_state :=
  match is_ with
  | [] => mret st
  | i :: rest =>
      st' ← send_one sender_bits_all sender_bases_all loss_rate st i;
      send_loop sender_bits_all sender_bases_all loss_rate st' rest
  end.

(** Step b: the loop over [range(photons_to_attempt)]. *)
Definition send_photons (photons_to_attempt : Z)
    (sender_bits_all sender_bases_all : list Z) (loss_rate : float)
  : M G sent_state :=
  send_loop sender_bits_all sender_bases_all loss_rate
            (SentState [] ∅ ∅) (range photons_to_attempt).

(** [[int(b) for b in bob_bases_str]] *)
Definition parse_bases (bob_bases_str : string) : result (list Z) :=
  collect (λ b,
    match int_of_char b with
    | Some n => Ok (Some n)
    | None => Raise (Exn ValueError "invalid literal for int() with base 10")
    end) (list_ascii_of_string bob_bases_str).

(** Step h: the proposed check indices, relative to the sifted key. *)
Definition propose (sifted_key : list Z) (key_length : Z) : M G (list Z) :=
  if bool_decide (sifted_key = []) then
    raise ValueError
      "No matching bases found after sifting. Cannot perform QBER check."
  else
    check_len ← lift (choose_check_len (len sifted_key) key_length);
    drawn ← with_rng (Random.sample_range (len sifted_key) check_len);
    sampled ← lift drawn;
    mret (merge_sort Z.le sampled).

(** Step i: the CHECK_BITS of the peer, of the sampled length. *)
Definition await_check_bits (check_indices : list Z) : M G string :=
  check_bits ← expect_message "Bob" "check bits" "CHECK_BITS";
  if bool_decide (str_len check_bits ≠ len check_indices) then
    raise ValueError ("Check bits length mismatch (Got " +:+
                      str_of_int (str_len check_bits) +:+ " from Bob, Expected "
                      +:+ str_of_int (len check_indices) +:+ ")")
  else mret check_bits.

(** Steps k and l: the decision on the estimated error rate, and the key. *)
Definition decide_key (a : args) (sifted_key check_indices : list Z)
    (qber : float) : M G (option (Z * list Z)) :=
  if PrimFloat.ltb (qber_threshold a) qber then
    send "ABORT" "QBER_HIGH";;
    update_stats (set_status QBERFail);;
    mret None
  else
    send "CONFIRM_KEY" "OK";;
    final_key_bits ← lift (final_key_bits sifted_key check_indices);
    update_stats (set_key_after_qber (len final_key_bits));;
    if len final_key_bits <? key_length a then
      update_stats (set_status KeyTooShort);;
      mret None
    else
      let sifted_sender_key_final := py_slice_to final_key_bits (key_length a) in
      qkd_seed ← with_rng (Utils.derive_seed_from_key sifted_sender_key_final);
      update_stats (set_status Success);;
      mret (Some (qkd_seed, sifted_sender_key_final)).

(** Steps j to l: the mismatches are counted, the error rate is judged. *)
Definition decide (a : args) (sifted_key check_indices : list Z)
    (check_bits : string) : M G (option (Z * list Z)) :=
  events ← lift (check_events sifted_key check_bits 0 check_indices);
  let mismatches := count_mismatches events in
  let qber := qber_of mismatches check_indices in
  update_stats (set_qber mismatches qber);;
  decide_key a sifted_key check_indices qber.

(** Steps h to l, from the sifted key on. *)
Definition verify (a : args) (sifted_key : list Z)
  : M G (option (Z * list Z)) :=
  check_indices ← propose sifted_key (key_length a);
  update_stats (set_check_bits (len check_indices));;
  send "CHECK_INDICES_REL_SIFT" (join_ints "," check_indices);;
  check_bits ← await_check_bits check_indices;
  decide a sifted_key check_indices check_bits.

(** The body of the [try] block. *)
Definition qkd_body (a : args) : M G (option (Z * list Z)) :=
  '(sender_bits_all, sender_bases_all) ← with_rng (prepare_qubits (photon_count a));
  st ← send_photons (photon_count a) sender_bits_all sender_bases_all (loss_rate a);
  send "SYNC" ("PHOTONS_SENT:" +:+ str_of_int (len (photons_sent_indices st)));;
  bob_bases_str ← expect_message "Bob" "bob bases" "BOB_BASES";
  bob_bases_list ← lift (parse_bases bob_bases_str);
  match_indices ← lift (sift st bob_bases_list);
  send "MATCH_INDICES_REL" (join_ints "," match_indices);;
  sifted_key ← lift (sifted_sender_key st match_indices);
  verify a sifted_key.

(** [perform_qkd_sender_role(qkd_conn, args, stats)] *)
Definition perform_qkd_sender_role (a : args) : M G (option (Z * list Z)) :=
  on_error "Sender" (qkd_body a).

End Role.
End Sender.

(** ** qkd_receiver.py

    The photon loop is modelled on the photons that arrive before the SYNC
    message; the two index lists are taken as decoded from their
    comma-separated payloads. *)

Module Receiver.

Record photon_info := PhotonInfo { bob_basis : Z; measured_bit : Z }.

(** Step c: [[info['bob_basis'] for info in received_photon_info]] *)
Definition bob_bases_sent (received_photon_info : list photon_info) : list Z :=
  bob_basis <$> received_photon_info.

(** Step e: the sifted key, from the indices Alice sent. *)
Definition sifted_receiver_key (received_photon_info : list photon_info)
    (match_indices : list Z) : result (list Z) :=
  collect (λ rel_idx,
    if rel_idx <? len received_photon_info then
      match py_getitem received_photon_info rel_idx with
      | Some info => Ok (Some (measured_bit info))
      | None => Raise (Exn IndexError "list index out of range")
      end
    else
      Raise (Exn IndexError
        ("Received relative match index " +:+ str_of_int rel_idx +:+
         " out of bounds for received photons (" +:+
         str_of_int (len received_photon_info) +:+ ")."))) match_indices.

(** Step g: the indices are validated, the bits at them are joined. *)
Definition check_bits_for (sifted_key : list Z) (indices_to_check : list Z)
  : result string :=
  if bool_decide (indices_to_check = []) then Ok ""
  else if existsb (λ i, (i <? 0) || (len sifted_key <=? i)) indices_to_check then
    Raise (Exn IndexError
      ("Invalid check indices received (out of bounds for sifted key length "
       +:+ str_of_int (len sifted_key) +:+ ")."))
  else
    bind (collect (λ i,
            match py_getitem sifted_key i with
            | Some b => Ok (Some (str_of_int b))
            | None => Raise (Exn IndexError "list index out of range")
            end) indices_to_check)
         (λ strs, Ok (String.concat "" strs)).

Section Role.
Context {G : Type} `{PyRandom G}.

(** Step a, the branch of a valid photon: Bob draws a basis; the sender's
    bit is measured when the bases agree, a random bit otherwise. *)
Definition measure_photon (s_basis s_bit : Z) (g : G) : photon_info * G :=
  let '(bob_basis, g1) := Random.randint 0 1 g in
  if bool_decide (bob_basis = s_basis) then (PhotonInfo bob_basis s_bit, g1)
  else
    let '(measured_bit, g2) := Random.randint 0 1 g1 in
    (PhotonInfo bob_basis measured_bit, g2).

Fixpoint receive_photons (photons : list (Z * Z)) (g : G)
  : list photon_info * G :=
  match photons with
  | [] => ([], g)
  | (s_basis, s_bit) :: rest =>
      let '(info, g1) := measure_photon s_basis s_bit g in
      let '(infos, g2) := receive_photons rest g1 in
      (info :: infos, g2)
  end.

(** Steps h and i: Alice's verdict, and the final key on CONFIRM_KEY. *)
Definition await_confirmation (key_length : Z)
    (sifted_key indices_to_check : list Z) : M G (option (Z * list Z)) :=
  m ← receive;
  match m with
  | None => raise ConnectionAbortedError "Alice disconnected (confirmation)"
  | Some (data_type, content) =>
      if bool_decide (data_type = "") then
        raise ConnectionAbortedError "Alice disconnected (confirmation)"
      else if bool_decide (data_type = "ABORT") then
        update_stats (set_status (AbortedByPeer content));;
        mret None
      else if bool_decide (data_type = "CONFIRM_KEY") then
        final_key_bits ← lift (final_key_bits sifted_key indices_to_check);
        update_stats (set_key_after_qber (len final_key_bits));;
        if len final_key_bits <? key_length then
          update_stats (set_status KeyTooShort);;
          mret None
        else
          let sifted_receiver_key_final := py_slice_to final_key_bits key_length in
          qkd_seed ← with_rng (Utils.derive_seed_from_key sifted_receiver_key_final);
          update_stats (set_status Success);;
          mret (Some (qkd_seed, sifted_receiver_key_final))
      else
        raise TypeError ("Expected CONFIRM_KEY or ABORT from Alice, got " +:+
                         data_type +:+ ":" +:+ content +:+ ".")
  end.

(** Steps f to i inside the [try] block, the check indices being those the
    CHECK_INDICES_REL_SIFT message carried.  No exception of these steps is
    raised with [data_type == "ABORT"], so the handler sends its own ABORT. *)
Definition verify (key_length : Z) (sifted_key indices_to_check : list Z)
  : M G (option (Z * list Z)) :=
  on_error "Receiver"
    (if bool_decide (sifted_key = []) then
       raise ValueError
         "No matching bases found after sifting. Cannot perform QBER check."
     else
       update_stats (set_check_bits (len indices_to_check));;
       bits_to_send_str ← lift (check_bits_for sifted_key indices_to_check);
       send "CHECK_BITS" bits_to_send_str;;
       await_confirmation key_length sifted_key indices_to_check).

End Role.
End Receiver.

(** ** A small generator for running the model

    A linear congruential generator; [sample] takes consecutive residues from
    a drawn offset. *)

Module Lcg.

Definition next (g : Z) : Z := (1103515245 * g + 12345) mod 2 ^ 31.

Definition randbelow (n : Z) (g : Z) : Z * Z := ((next g / 65536) mod n, next g).

Definition random (g : Z) : float * Z := (truediv (next g) (2 ^ 31), next g).

Definition sample (n k : Z) (g : Z) : list Z * Z :=
  ((λ i, (next g + i) mod n) <$> range k, next g).

(** A world with generator state [g] and the public messages [msgs] to come. *)
Definition world_of (g : Z) (msgs : list (option (string * string))) : world Z :=
  World g msgs [] [] initial_stats.

End Lcg.

(** * Specification vocabulary *)

Definition is_bit (b : Z) : Prop := b = 0 ∨ b = 1.

(** The character of a bit, as a byte: ['0'] is 48, ['1'] is 49. *)
Definition bit_byte (b : Z) : Z := 48 + b.

(** The seed as the specification words it: the first four bytes of the
    SHA-256 digest of the bit characters, big-endian. *)
Definition seed_of_bits (key : list Z) : Z :=
  int_from_bytes_big (take 4 (Sha256.sha256 (bit_byte <$> key))).


(** What the receiver's measurement guarantees: with the sender's basis, the
    sender's bit; with the other basis, some bit. *)
Definition measurement_rule (photon : Z * Z) (info : Receiver.photon_info) : Prop :=
  Receiver.bob_basis info = photon.1 → Receiver.measured_bit info = photon.2.

(** The transmit loop's invariant: the [j]-th index kept leads, through the
    two dictionaries, to the basis and bit of the [j]-th photon sent. *)
Definition consistent (st : Sender.sent_state) (photons : list (Z * Z)) : Prop :=
  Forall2 (λ i p, Sender.sender_bases_sent st !! i = Some p.1
                  ∧ Sender.sender_bits_sent st !! i = Some p.2)
          (Sender.photons_sent_indices st) photons.

(** The index [j] is a match: the [j]-th photon sent and the [j]-th photon
    received carry the same basis. *)
Definition bases_agree (ph : list (Z * Z)) (info : list Receiver.photon_info)
    (j : Z) : Prop :=
  0 ≤ j ∧ ∃ p inf, ph !! Z.to_nat j = Some p ∧ info !! Z.to_nat j = Some inf
                   ∧ p.1 = Receiver.bob_basis inf.

(** The sample size as the specification words it: the second attempt is
    [sifted_len // 2]; [None] is the abort. *)
Definition check_len_as_stated (sifted_len key_length : Z) : option Z :=
  let size := Z.max 1 (Z.min (sifted_len / 4) (2 * key_length)) in
  let size := if sifted_len <=? size then sifted_len / 2 else size in
  if sifted_len <=? size then None else Some size.

(** The generator is the only part of the world a draw changes. *)
Definition same_but_rng {G} (w w' : world G) : Prop :=
  inbox w' = inbox w ∧ outbox w' = outbox w
  ∧ quantum_out w' = quantum_out w ∧ stat w' = stat w.

(** What one position of the check must be judged, given the sender's bit [a]
    and the character [c] the peer disclosed. *)
Inductive judged (a : Z) (c : ascii) : Sender.check_event → Prop :=
  | judged_bad_char :
      int_of_char c = None → judged a c Sender.BadChar
  | judged_differ b :
      int_of_char c = Some b → a ≠ b → judged a c Sender.Differ
  | judged_agree :
      int_of_char c = Some a → judged a c Sender.Agree.

(** The positions of the sifted key that the sample leaves, in order. *)
Definition kept_positions (sifted_key check_indices : list Z) : list Z :=
  filter (λ i, i ∉ check_indices) (range (len sifted_key)).

(** The bits at positions [is_], in that order. *)
Definition bits_at (sifted_key : list Z) (is_ bits : list Z) : Prop :=
  Forall2 (λ i b, py_getitem sifted_key i = Some b) is_ bits.

(** Python's [0.15], the default threshold: the nearest binary64 value. *)
Definition threshold_15 : float := 0x1.3333333333333p-3%float.

(** The defaults of [config.py]: 16 key bits, 10 photons per bit, 10% loss. *)
Definition default_args : Sender.args :=
  Sender.Args 160 16 0x1.999999999999ap-4%float threshold_15.

(** Twenty sampled positions of a forty-bit key of zeros, and the peer's
    answers with three and with four ones. *)
Definition forty_zeros : list Z := replicate 40 0.
Definition three_of_twenty : string := "11100000000000000000".
Definition four_of_twenty : string := "11110000000000000000".

(** * Properties *)

Section Basics.
Context {A : Type}.
Implicit Types l : list A.

Lemma len_nonneg l : 0 ≤ len l.
Proof. unfold len. lia. Qed.

Lemma len_nil : len (@nil A) = 0.
Proof. reflexivity. Qed.

Lemma len_cons x l : len (x :: l) = 1 + len l.
Proof. unfold len. simpl. lia. Qed.

Lemma len_app l1 l2 : len (l1 ++ l2) = len l1 + len l2.
Proof. unfold len. rewrite length_app. lia. Qed.

Lemma py_getitem_nonneg l i : 0 ≤ i → py_getitem l i = l !! Z.to_nat i.
Proof. intros Hi. unfold py_getitem. by rewrite (proj2 (Z.leb_le 0 i) Hi). Qed.

Lemma py_getitem_in_range l i : 0 ≤ i < len l → is_Some (py_getitem l i).
Proof.
  intros [Hi Hl]. rewrite py_getitem_nonneg by done.
  apply lookup_lt_is_Some. unfold len in Hl. lia.
Qed.

Lemma py_getitem_of_nat l (k : nat) : py_getitem l (Z.of_nat k) = l !! k.
Proof. rewrite py_getitem_nonneg by lia. by rewrite Nat2Z.id. Qed.

Lemma py_getitem_elem_of l i x : py_getitem l i = Some x → x ∈ l.
Proof.
  unfold py_getitem. repeat case_match; try done; apply list_elem_of_lookup_2.
Qed.
End Basics.

Lemma elem_of_range x n : x ∈ range n ↔ 0 ≤ x < n.
Proof.
  unfold range. rewrite list_elem_of_fmap. split.
  - intros (k & -> & Hk). apply elem_of_seq in Hk. lia.
  - intros Hx. exists (Z.to_nat x). split; [lia |]. apply elem_of_seq. lia.
Qed.

Lemma NoDup_range n : NoDup (range n).
Proof.
  unfold range. apply NoDup_fmap; [apply Nat2Z.inj' | apply NoDup_seq].
Qed.

Lemma length_range n : length (range n) = Z.to_nat n.
Proof. unfold range. by rewrite length_fmap, length_seq. Qed.

Section Collect.
Context {A B : Type}.

Lemma collect_total (body : A → result (option B)) (f : A → option B) xs :
  (∀ x, x ∈ xs → body x = Ok (f x)) → collect body xs = Ok (omap f xs).
Proof.
  induction xs as [| x xs IH]; intros Hb; [done |].
  simpl. rewrite (Hb x) by left.
  rewrite IH by (intros y Hy; apply Hb; by right). done.
Qed.

End Collect.

Section UtilsFacts.
Context {G : Type} `{PyRandom G}.

Lemma choice_in {V} (frequencies : list V) (g : G) :
  frequencies ≠ [] →
  ∃ x g', Random.choice frequencies g = (Ok x, g') ∧ x ∈ frequencies.
Proof.
  intros Hne. unfold Random.choice. rewrite bool_decide_eq_false_2 by done.
  assert (0 < len frequencies) as Hpos.
  { destruct frequencies as [| x l]; [done |].
    rewrite len_cons. pose proof (len_nonneg l). lia. }
  pose proof (rnd_randbelow_range (len frequencies) g Hpos) as Hr.
  destruct (rnd_randbelow (len frequencies) g) as [i g'] eqn:Hd. simpl in Hr.
  destruct (py_getitem_in_range frequencies i Hr) as [x Hx].
  rewrite Hx. exists x, g'. split; [done |]. by eapply py_getitem_elem_of.
Qed.

Lemma choose_each_shape {V} (n : nat) (frequencies : list V) (r : G) :
  frequencies ≠ [] →
  ∃ pattern, Utils.choose_each n frequencies r = Ok pattern
             ∧ length pattern = n ∧ ∀ x, x ∈ pattern → x ∈ frequencies.
Proof.
  intros Hne. revert r. induction n as [| n IH]; intros r; simpl.
  - exists []. split_and!; [done | done |]. intros x Hx. by apply elem_of_nil in Hx.
  - destruct (choice_in frequencies r Hne) as (x & r' & -> & Hx).
    destruct (IH r') as (rest & -> & Hlen & Hin). simpl.
    exists (x :: rest). split_and!; [done | simpl; lia |].
    intros y [-> | Hy]%elem_of_cons; auto.
Qed.

(** C9 (pattern shape).  [generate_hopping_pattern(seed, length, frequencies)]
    returns the empty sequence when [frequencies] is empty or [length <= 0];
    otherwise it returns, without raising, a sequence of exactly [length]
    elements, each a member of [frequencies].  The process-wide generator is
    left as it was. *)
Theorem pattern_shape {V} (seed length : Z) (frequencies : list V) (g : G) :
  (frequencies = [] ∨ length ≤ 0 →
     Utils.generate_hopping_pattern seed length frequencies g = (Ok [], g)) ∧
  (frequencies ≠ [] ∧ 0 < length →
     ∃ pattern,
       Utils.generate_hopping_pattern seed length frequencies g = (Ok pattern, g)
       ∧ len pattern = length
       ∧ ∀ x, x ∈ pattern → x ∈ frequencies).
Proof.
  unfold Utils.generate_hopping_pattern. split.
  - intros [-> | Hl]; [done |]. case_bool_decide; [done |].
    by rewrite (proj2 (Z.leb_le length 0) Hl).
  - intros [Hne Hl]. rewrite bool_decide_eq_false_2 by done.
    rewrite (proj2 (Z.leb_gt length 0) Hl).
    destruct (choose_each_shape (Z.to_nat length) frequencies (rnd_seed seed) Hne)
      as (pattern & -> & Hlen & Hin).
    exists pattern. split_and!; [done | unfold len; lia | done].
Qed.

(** C8 (pattern determinism).  Two calls of [generate_hopping_pattern] with
    the same seed, length and frequency list give the same result whatever
    the states [g1] and [g2] of the process-wide generator at the two calls:
    the process-wide generator is not advanced, and the elements are the
    successive choices of a generator created from [seed] alone. *)
Theorem pattern_determinism {V} (seed length : Z) (frequencies : list V)
    (g1 g2 : G) :
  (Utils.generate_hopping_pattern seed length frequencies g1).1 =
  (Utils.generate_hopping_pattern seed length frequencies g2).1
  ∧ (Utils.generate_hopping_pattern seed length frequencies g1).2 = g1
  ∧ (frequencies ≠ [] ∧ 0 < length →
       (Utils.generate_hopping_pattern seed length frequencies g1).1 =
       Utils.choose_each (Z.to_nat length) frequencies (rnd_seed seed)).
Proof.
  unfold Utils.generate_hopping_pattern. split_and!.
  - by repeat case_match.
  - by repeat case_match.
  - intros [Hne Hl]. rewrite bool_decide_eq_false_2 by done.
    by rewrite (proj2 (Z.leb_gt length 0) Hl).
Qed.
End UtilsFacts.

(** ** Seed derivation *)


Lemma string_app_nil_r (s : string) : (s +:+ "")%string = s.
Proof.
  induction s as [| c s IH]; [done |].
  change (String c s +:+ "") with (String c (s +:+ "")). by rewrite IH.
Qed.

Lemma concat_empty_cons (x : string) (xs : list string) :
  String.concat "" (x :: xs) = (x +:+ String.concat "" xs)%string.
Proof. destruct xs; [symmetry; apply string_app_nil_r | done]. Qed.

Lemma list_ascii_of_string_app (s1 s2 : string) :
  list_ascii_of_string (s1 +:+ s2) = list_ascii_of_string s1 ++ list_ascii_of_string s2.
Proof.
  induction s1 as [| c s1 IH]; [done |].
  change (String c s1 +:+ s2) with (String c (s1 +:+ s2)). simpl. by rewrite IH.
Qed.

Lemma encode_app (s1 s2 : string) : encode (s1 +:+ s2) = encode s1 ++ encode s2.
Proof. unfold encode. by rewrite list_ascii_of_string_app, fmap_app. Qed.

Lemma encode_bits (key : list Z) :
  Forall is_bit key → encode (join_ints "" key) = bit_byte <$> key.
Proof.
  unfold join_ints. induction 1 as [| b key Hb _ IH]; [done |].
  rewrite fmap_cons, concat_empty_cons, encode_app, IH.
  by destruct Hb as [-> | ->].
Qed.

Lemma int_from_bytes_big_snoc (bs : list Z) (b : Z) :
  int_from_bytes_big (bs ++ [b]) = int_from_bytes_big bs * 256 + b.
Proof. unfold int_from_bytes_big. by rewrite fold_left_app. Qed.

Lemma int_from_bytes_big_range (bs : list Z) :
  Forall (λ b, 0 ≤ b < 256) bs →
  0 ≤ int_from_bytes_big bs < 256 ^ len bs.
Proof.
  induction bs as [| b bs IH] using rev_ind; intros Hbs.
  - unfold int_from_bytes_big, len. simpl. lia.
  - apply Forall_app in Hbs as [Hbs Hb%Forall_inv].
    specialize (IH Hbs). rewrite int_from_bytes_big_snoc, len_app.
    change (len [b]) with 1. rewrite Z.pow_add_r by (pose proof (len_nonneg bs); lia).
    rewrite Z.pow_1_r. generalize dependent (256 ^ len bs). intros. lia.
Qed.

Lemma be_bytes_range (n : nat) (x : Z) : Forall (λ b, 0 ≤ b < 256) (Sha256.be_bytes n x).
Proof.
  revert x. induction n as [| n IH]; intros x; simpl; [constructor |].
  apply Forall_app. split; [apply IH |]. apply Forall_singleton.
  apply Z.mod_pos_bound. lia.
Qed.

Lemma sha256_bytes (msg : list Z) : Forall (λ b, 0 ≤ b < 256) (Sha256.sha256 msg).
Proof.
  unfold Sha256.sha256. generalize (fold_left Sha256.compress
    (Sha256.blocks (length (Sha256.words (length (Sha256.pad msg)) (Sha256.pad msg)))
       (Sha256.words (length (Sha256.pad msg)) (Sha256.pad msg))) Sha256.initial_hash).
  intros h. induction h as [| x h IH]; [constructor |].
  change ((x :: h) ≫= Sha256.be_bytes 4) with (Sha256.be_bytes 4 x ++ (h ≫= Sha256.be_bytes 4)).
  apply Forall_app. split; [apply be_bytes_range | apply IH].
Qed.

Lemma seed_of_bits_range (key : list Z) : 0 ≤ seed_of_bits key < 2 ^ 32.
Proof.
  unfold seed_of_bits.
  set (bs := take 4 (Sha256.sha256 (bit_byte <$> key))).
  assert (Forall (λ b, 0 ≤ b < 256) bs) as Hbs.
  { apply Forall_take, sha256_bytes. }
  pose proof (int_from_bytes_big_range bs Hbs) as Hr.
  assert (len bs ≤ 4) as Hlen.
  { unfold len, bs. rewrite length_take. lia. }
  assert (256 ^ len bs ≤ 256 ^ 4) by (apply Z.pow_le_mono_r; [lia | lia]).
  change (2 ^ 32) with (256 ^ 4). lia.
Qed.

Section SeedFacts.
Context {G : Type} `{PyRandom G}.

(** C7 (seed derivation).  On a key of fewer than 8 bits (the empty key
    included) [derive_seed_from_key] returns a draw of [randint(0, 2^32 - 1)]
    from the process-wide generator.  On a key of at least 8 bits it returns
    the first four bytes of the SHA-256 digest of the bits written as ['0'] and
    ['1'], read as a big-endian unsigned integer, a value below [2^32], and
    draws nothing; so the seed depends on the key alone, and two parties with
    equal keys derive equal seeds whatever their generators' states. *)
Theorem seed_derivation (key : list Z) (g : G) :
  (len key < 8 →
     Utils.derive_seed_from_key key g = Random.randint 0 (2 ^ 32 - 1) g) ∧
  (8 ≤ len key → Forall is_bit key →
     Utils.derive_seed_from_key key g = (seed_of_bits key, g)
     ∧ 0 ≤ seed_of_bits key < 2 ^ 32) ∧
  (8 ≤ len key →
     ∀ (key' : list Z) (g' : G), key' = key →
       (Utils.derive_seed_from_key key' g').1 = (Utils.derive_seed_from_key key g).1).
Proof.
  unfold Utils.derive_seed_from_key. split_and!.
  - intros Hshort. rewrite (proj2 (Z.ltb_lt (len key) 8) Hshort).
    by rewrite orb_true_r.
  - intros Hlong Hbits. rewrite bool_decide_eq_false_2.
    2: { intros ->. simpl in Hlong. rewrite len_nil in Hlong. lia. }
    rewrite (proj2 (Z.ltb_ge (len key) 8) Hlong). simpl.
    rewrite encode_bits by done. split; [done | apply seed_of_bits_range].
  - intros Hlong key' g' ->. rewrite bool_decide_eq_false_2.
    2: { intros ->. rewrite len_nil in Hlong. lia. }
    by rewrite (proj2 (Z.ltb_ge (len key) 8) Hlong).
Qed.
End SeedFacts.

(** ** The verification sample *)


Lemma choose_check_len_cases (L K : Z) :
  1 ≤ L →
  (L = 1 ∧ ∃ e, Sender.choose_check_len L K = Raise e ∧ kind e = ValueError) ∨
  (1 < L ∧ Sender.choose_check_len L K = Ok (Z.max 1 (Z.min (L / 4) (K * 2)))
   ∧ 1 ≤ Z.max 1 (Z.min (L / 4) (K * 2)) < L).
Proof.
  intros HL. unfold Sender.choose_check_len.
  assert (L / 4 < L) as Hq by (apply Z.div_lt; lia).
  set (c0 := Z.max 1 (Z.min (L / 4) (K * 2))).
  assert (1 ≤ c0) by lia.
  destruct (decide (L = 1)) as [-> | Hne].
  - left. split; [done |]. vm_compute (1 / 4) in c0. 
    assert (c0 = 1) as -> by lia. simpl. eauto.
  - right. assert (c0 < L) by lia.
    rewrite (proj2 (Z.leb_gt L c0)) by done.
    rewrite (proj2 (Z.leb_gt L c0)) by done. split_and!; [lia | done | lia | done].
Qed.

Section ProposeFacts.
Context {G : Type} `{PyRandom G}.

Lemma sample_range_ok (n k : Z) (g : G) :
  0 ≤ k ≤ n →
  ∃ l g', Random.sample_range n k g = (Ok l, g')
          ∧ len l = k ∧ NoDup l ∧ ∀ x, x ∈ l → 0 ≤ x < n.
Proof.
  intros Hk. unfold Random.sample_range.
  rewrite (proj2 (Z.leb_le 0 k)), (proj2 (Z.leb_le k n)) by lia. simpl.
  pose proof (rnd_sample_length n k g Hk) as Hlen.
  pose proof (rnd_sample_NoDup n k g Hk) as Hnd.
  pose proof (rnd_sample_range n k g) as Hr.
  destruct (rnd_sample n k g) as [l g']. simpl in *.
  exists l, g'. split_and!; [done | unfold len; lia | done | ].
  intros x Hx. by apply Hr.
Qed.

Lemma propose_empty (K : Z) (w : world G) :
  ∃ e, Sender.propose [] K w = (Raise e, w) ∧ kind e = ValueError.
Proof. unfold Sender.propose. simpl. eexists. split; reflexivity. Qed.

Lemma propose_single (b K : Z) (w : world G) :
  ∃ e, Sender.propose [b] K w = (Raise e, w) ∧ kind e = ValueError.
Proof.
  unfold Sender.propose. simpl.
  destruct (choose_check_len_cases 1 K) as [(_ & e & He & Hk) | (? & _)];
    [lia | | lia].
  change (len [b]) with 1. unfold mbind, M_bind, lift. rewrite He. eauto.
Qed.

Lemma propose_sample (sifted_key : list Z) (K : Z) (w : world G) :
  1 < len sifted_key →
  ∃ check w',
    Sender.propose sifted_key K w = (Ok check, w')
    ∧ same_but_rng w w'
    ∧ len check = Z.max 1 (Z.min (len sifted_key / 4) (K * 2))
    ∧ NoDup check
    ∧ (∀ i, i ∈ check → 0 ≤ i < len sifted_key)
    ∧ Sorted Z.le check.
Proof.
  intros HL. unfold Sender.propose.
  rewrite bool_decide_eq_false_2.
  2: { intros ->. rewrite len_nil in HL. lia. }
  destruct (choose_check_len_cases (len sifted_key) K) as [[? _] | (_ & Hc & Hrange)];
    [lia | lia |].
  set (c := Z.max 1 (Z.min (len sifted_key / 4) (K * 2))) in *.
  unfold mbind, M_bind, lift. rewrite Hc.
  destruct (sample_range_ok (len sifted_key) c (rng w)) as (l & g' & Hs & Hlen & Hnd & Hin);
    [lia |].
  unfold with_rng. rewrite Hs. simpl.
  eexists _, _. split; [reflexivity |].
  pose proof (merge_sort_Permutation Z.le l) as Hperm.
  split_and!.
  - done.
  - unfold len in *. by rewrite Hperm.
  - by rewrite Hperm.
  - intros i Hi. apply Hin. by rewrite <- Hperm.
  - apply Sorted_merge_sort. intros x y. lia.
Qed.

(** C4, amended (verification-sample sizing).  An empty sifted key aborts
    with a [ValueError].  Otherwise the sample size is first
    [max(1, min(sifted_len // 4, 2 * key_length))]; if that would leave no
    unchecked bit it becomes [max(1, sifted_len // 2)]; if that still leaves
    no unchecked bit the sender aborts with a [ValueError]; otherwise the
    proposal is that many distinct indices of the sifted key's index range,
    sorted ascending, and only the generator has changed. *)
Theorem sample_sizing (sifted_key : list Z) (K : Z) (w : world G) :
  let L := len sifted_key in
  let first := Z.max 1 (Z.min (L / 4) (2 * K)) in
  let size := if L <=? first then Z.max 1 (L / 2) else first in
  (sifted_key = [] →
     ∃ e, Sender.propose sifted_key K w = (Raise e, w) ∧ kind e = ValueError) ∧
  (sifted_key ≠ [] ∧ L ≤ size →
     ∃ e, Sender.propose sifted_key K w = (Raise e, w) ∧ kind e = ValueError) ∧
  (sifted_key ≠ [] ∧ size < L →
     ∃ check w',
       Sender.propose sifted_key K w = (Ok check, w')
       ∧ same_but_rng w w'
       ∧ len check = size
       ∧ NoDup check
       ∧ (∀ i, i ∈ check → 0 ≤ i < L)
       ∧ Sorted Z.le check).
Proof.
  intros L first size. split_and!.
  - intros ->. apply propose_empty.
  - intros [Hne Hsize].
    assert (1 ≤ L) as HL.
    { destruct sifted_key; [done |]. subst L. rewrite len_cons.
      pose proof (len_nonneg sifted_key). lia. }
    assert (L = 1) as HL1.
    { assert (L / 4 < L) by (apply Z.div_lt; lia).
      assert (L / 2 < L) by (apply Z.div_lt; lia).
      subst size first.
      destruct (Z.leb_spec L (Z.max 1 (Z.min (L / 4) (2 * K)))); clearbody L; [lia |].
        exfalso. eapply Z.lt_irrefl, Z.le_lt_trans; [apply Hsize | done]. }
    destruct sifted_key as [| b [| b' rest]]; [done | apply propose_single |].
    subst L. rewrite !len_cons in HL1. pose proof (len_nonneg rest). lia.
  - intros [Hne Hsize].
    assert (1 ≤ L) as HL.
    { destruct sifted_key; [done |]. subst L. rewrite len_cons.
      pose proof (len_nonneg sifted_key). lia. }
    assert (1 < L ∧ size = Z.max 1 (Z.min (L / 4) (K * 2))) as [HL1 Hsz].
    { assert (L / 4 < L) by (apply Z.div_lt; lia).
      subst size first. replace (2 * K) with (K * 2) in * by lia.
      destruct (Z.leb_spec L (Z.max 1 (Z.min (L / 4) (K * 2)))); [| clearbody L; lia].
      clearbody L. lia. }
    rewrite Hsz. by apply propose_sample.
Qed.
End ProposeFacts.


(** ** The final key *)


Lemma length_filter_split {A} (P : A → Prop) `{∀ x, Decision (P x)} (l : list A) :
  (length (filter P l) + length (filter (λ x, ¬ P x) l) = length l)%nat.
Proof.
  induction l as [| x l IH]; [done |].
  rewrite !filter_cons. destruct (decide (P x)), (decide (¬ P x)); simpl; try done; lia.
Qed.

Lemma filter_sample_Permutation (check : list Z) (L : Z) :
  NoDup check → (∀ i, i ∈ check → 0 ≤ i < L) →
  filter (λ i, i ∈ check) (range L) ≡ₚ check.
Proof.
  intros Hnd Hin. apply NoDup_Permutation; [apply NoDup_filter, NoDup_range | done |].
  intros x. rewrite list_elem_of_filter, elem_of_range.
  split; [by intros [? _] | intros Hx; split; [done | by apply Hin]].
Qed.

Lemma length_kept_positions (sifted_key check : list Z) :
  NoDup check → (∀ i, i ∈ check → 0 ≤ i < len sifted_key) →
  len (kept_positions sifted_key check) = len sifted_key - len check.
Proof.
  intros Hnd Hin. unfold kept_positions.
  pose proof (length_filter_split (λ i, i ∈ check) (range (len sifted_key))) as Hsplit.
  rewrite (filter_sample_Permutation check (len sifted_key) Hnd Hin) in Hsplit.
  rewrite length_range in Hsplit. unfold len in *. lia.
Qed.

Lemma final_key_bits_ok (sifted_key check : list Z) :
  ∃ final, final_key_bits sifted_key check = Ok final
           ∧ bits_at sifted_key (kept_positions sifted_key check) final.
Proof.
  unfold final_key_bits, kept_positions, bits_at.
  set (f := λ i : Z, if bool_decide (i ∉ check) then py_getitem sifted_key i else None).
  exists (omap f (range (len sifted_key))). split.
  - apply collect_total. intros i [Hi Hl]%elem_of_range. unfold f.
    case_bool_decide; [| done].
    by destruct (py_getitem_in_range sifted_key i) as [b ->].
  - assert (∀ xs, (∀ x, x ∈ xs → 0 ≤ x < len sifted_key) →
            Forall2 (λ i b, py_getitem sifted_key i = Some b)
                    (filter (λ i, i ∉ check) xs) (omap f xs)) as Hgen.
    { induction xs as [| x xs IH]; intros Hxs; [constructor |].
      rewrite filter_cons. simpl. unfold f at 1.
      destruct (decide (x ∉ check)) as [Hx | Hx].
      - rewrite bool_decide_eq_true_2 by done.
        destruct (py_getitem_in_range sifted_key x) as [b Hb]; [apply Hxs; left |].
        rewrite Hb. constructor; [done |]. apply IH. intros y Hy. apply Hxs. by right.
      - rewrite bool_decide_eq_false_2 by done.
        apply IH. intros y Hy. apply Hxs. by right. }
    apply Hgen. intros x. apply elem_of_range.
Qed.

Lemma kept_positions_spec (sifted_key check : list Z) (i : Z) :
  i ∈ kept_positions sifted_key check ↔ 0 ≤ i < len sifted_key ∧ i ∉ check.
Proof. unfold kept_positions. rewrite list_elem_of_filter, elem_of_range. tauto. Qed.

Lemma Sorted_lt_range (n : Z) : Sorted Z.lt (range n).
Proof.
  unfold range. generalize 0%nat. induction (Z.to_nat n) as [| k IH]; intros s; simpl.
  - constructor.
  - constructor; [apply IH |]. destruct k; simpl; constructor. lia.
Qed.

Lemma StronglySorted_filter_keeps {A} (R : relation A) (P : A → Prop)
    `{∀ x, Decision (P x)} (l : list A) :
  StronglySorted R l → StronglySorted R (filter P l).
Proof.
  induction 1 as [| x l Hl IH Hx]; [constructor |].
  rewrite filter_cons. destruct (decide (P x)); [| done].
  constructor; [done |]. apply Forall_forall. intros y Hy%list_elem_of_filter.
  rewrite Forall_forall in Hx. apply Hx. tauto.
Qed.

Lemma kept_positions_ascending (sifted_key check : list Z) :
  StronglySorted Z.lt (kept_positions sifted_key check).
Proof.
  unfold kept_positions. apply StronglySorted_filter_keeps.
  apply Sorted_StronglySorted; [intros x y z; lia | apply Sorted_lt_range].
Qed.

Lemma py_slice_to_length {A} (l : list A) (k : Z) :
  0 ≤ k ≤ len l → len (py_slice_to l k) = k.
Proof.
  intros Hk. unfold py_slice_to. rewrite (proj2 (Z.leb_le 0 k)) by lia.
  unfold len in *. rewrite length_take. lia.
Qed.

(** ** Counting the mismatches *)


Lemma str_getitem_in_range (s : string) (i : Z) :
  0 ≤ i < str_len s → is_Some (str_getitem s i).
Proof. apply py_getitem_in_range. Qed.

Lemma check_event_at_judged (sifted_key : list Z) (check_bits : string) (i idx : Z) :
  0 ≤ idx < len sifted_key → 0 ≤ i < str_len check_bits →
  ∃ a c e, py_getitem sifted_key idx = Some a
           ∧ str_getitem check_bits i = Some c
           ∧ Sender.check_event_at sifted_key check_bits i idx = Ok e
           ∧ judged a c e.
Proof.
  intros Hidx Hi. unfold Sender.check_event_at.
  rewrite (proj2 (Z.ltb_lt idx (len sifted_key))) by lia.
  destruct (py_getitem_in_range sifted_key idx Hidx) as [a Ha].
  destruct (str_getitem_in_range check_bits i Hi) as [c Hc].
  rewrite Ha, Hc. exists a, c.
  destruct (int_of_char c) as [b |] eqn:Hb.
  - case_bool_decide as Hab.
    + eexists. split_and!; [done | done | done | by eapply judged_differ].
    + subst b.
      eexists. split_and!; [done | done | done | by apply judged_agree].
  - eexists. split_and!; [done | done | done | by apply judged_bad_char].
Qed.

Lemma check_events_judged (sifted_key : list Z) (check_bits : string)
    (check : list Z) (i : Z) :
  0 ≤ i → (∀ idx, idx ∈ check → 0 ≤ idx < len sifted_key) →
  i + len check ≤ str_len check_bits →
  ∃ evs, Sender.check_events sifted_key check_bits i check = Ok evs
         ∧ length evs = length check
         ∧ ∀ (k : nat) idx, check !! k = Some idx →
             ∃ a c e, py_getitem sifted_key idx = Some a
                      ∧ str_getitem check_bits (i + Z.of_nat k) = Some c
                      ∧ evs !! k = Some e
                      ∧ judged a c e.
Proof.
  revert i. induction check as [| idx check IH]; intros i Hi Hin Hlen.
  - exists []. split_and!; [done | done |]. intros k idx' Hk. by rewrite lookup_nil in Hk.
  - rewrite len_cons in Hlen. pose proof (len_nonneg check).
    destruct (check_event_at_judged sifted_key check_bits i idx)
      as (a & c & e & Ha & Hc & He & Hj); [apply Hin; left | lia |].
    destruct (IH (i + 1)) as (evs & Hevs & Hl & Hk); [lia | | lia |].
    { intros idx' Hidx'. apply Hin. by right. }
    simpl. rewrite He. simpl. rewrite Hevs. simpl.
    exists (e :: evs). split_and!; [done | simpl; lia |].
    intros [| k] idx' Hlook; simpl in Hlook.
    + injection Hlook as <-. exists a, c, e. rewrite Z.add_0_r. done.
    + destruct (Hk k idx' Hlook) as (a' & c' & e' & ? & Hc' & ? & ?).
      exists a', c', e'. split_and!; try done.
      by replace (i + Z.of_nat (S k)) with (i + 1 + Z.of_nat k) by lia.
Qed.


(** ** The roles' last steps *)

Ltac world_simpl := cbn [rng inbox outbox quantum_out stat fst snd].

Section RoleFacts.
Context {G : Type} `{PyRandom G}.

Lemma decide_key_abort (a : Sender.args) (sifted_key check : list Z)
    (qber : float) (w : world G) :
  PrimFloat.ltb (Sender.qber_threshold a) qber = true →
  Sender.decide_key a sifted_key check qber w =
    (Ok None, World (rng w) (inbox w) (outbox w ++ [Msg "ABORT" "QBER_HIGH"])
                    (quantum_out w) (set_status QBERFail (stat w))).
Proof. intros Hq. unfold Sender.decide_key. rewrite Hq. done. Qed.

Lemma decide_key_confirm (a : Sender.args) (sifted_key check : list Z)
    (qber : float) (w : world G) (final : list Z) :
  PrimFloat.ltb (Sender.qber_threshold a) qber = false →
  final_key_bits sifted_key check = Ok final →
  let K := Sender.key_length a in
  let out := outbox w ++ [Msg "CONFIRM_KEY" "OK"] in
  let t := set_key_after_qber (len final) (stat w) in
  (len final < K →
     Sender.decide_key a sifted_key check qber w =
       (Ok None, World (rng w) (inbox w) out (quantum_out w)
                       (set_status KeyTooShort t))) ∧
  (K ≤ len final →
     let key := py_slice_to final K in
     let seed := Utils.derive_seed_from_key key (rng w) in
     Sender.decide_key a sifted_key check qber w =
       (Ok (Some (seed.1, key)),
        World seed.2 (inbox w) out (quantum_out w) (set_status Success t))).
Proof.
  intros Hq Hfinal K out t. unfold Sender.decide_key. rewrite Hq.
  unfold mbind, M_bind, send, lift, update_stats, with_rng. simpl. rewrite Hfinal.
  simpl. fold K. split; intros HK.
  - by rewrite (proj2 (Z.ltb_lt (len final) K) HK).
  - rewrite (proj2 (Z.ltb_ge (len final) K) HK). world_simpl.
    by destruct (Utils.derive_seed_from_key (py_slice_to final K) (rng w)).
Qed.

Lemma await_confirmation_confirm (K : Z) (sifted_key check : list Z)
    (w : world G) (content : string) (rest : list (option (string * string)))
    (final : list Z) :
  inbox w = Some ("CONFIRM_KEY", content) :: rest →
  final_key_bits sifted_key check = Ok final →
  let t := set_key_after_qber (len final) (stat w) in
  (len final < K →
     Receiver.await_confirmation K sifted_key check w =
       (Ok None, World (rng w) rest (outbox w) (quantum_out w)
                       (set_status KeyTooShort t))) ∧
  (K ≤ len final →
     let key := py_slice_to final K in
     let seed := Utils.derive_seed_from_key key (rng w) in
     Receiver.await_confirmation K sifted_key check w =
       (Ok (Some (seed.1, key)),
        World seed.2 rest (outbox w) (quantum_out w) (set_status Success t))).
Proof.
  intros Hin Hfinal t. unfold Receiver.await_confirmation.
  unfold mbind, M_bind, receive, lift, update_stats, with_rng. rewrite Hin.
  simpl. rewrite Hfinal. simpl. split; intros HK.
  - by rewrite (proj2 (Z.ltb_lt (len final) K) HK).
  - rewrite (proj2 (Z.ltb_ge (len final) K) HK). world_simpl.
    by destruct (Utils.derive_seed_from_key (py_slice_to final K) (rng w)).
Qed.

(** C2 (final-key construction).  Let the sample be distinct indices of the
    sifted key and the desired key length be a length (not negative).  After
    a CONFIRM_KEY decision both roles build the same list: the bits at the
    positions of the sifted key that are not in the sample, in ascending
    order of position, [len(sifted_key) - len(sample)] of them.  If fewer than
    the desired length remain, both end with status "Key Too Short" and
    return no key; otherwise both return the first [key_length] bits, a key
    of exactly that length, with status "Success". *)
Theorem final_key_construction (sifted_key check : list Z) (a : Sender.args)
    (qber : float) (content : string) (rest : list (option (string * string)))
    (ws wr : world G) :
  NoDup check →
  (∀ i, i ∈ check → 0 ≤ i < len sifted_key) →
  0 ≤ Sender.key_length a →
  PrimFloat.ltb (Sender.qber_threshold a) qber = false →
  inbox wr = Some ("CONFIRM_KEY", content) :: rest →
  let K := Sender.key_length a in
  ∃ final,
    final_key_bits sifted_key check = Ok final
    ∧ bits_at sifted_key (kept_positions sifted_key check) final
    ∧ (∀ i, i ∈ kept_positions sifted_key check ↔
              0 ≤ i < len sifted_key ∧ i ∉ check)
    ∧ StronglySorted Z.lt (kept_positions sifted_key check)
    ∧ len final = len sifted_key - len check
    ∧ (len final < K →
         ∃ ws' wr',
           Sender.decide_key a sifted_key check qber ws = (Ok None, ws')
           ∧ st_status (stat ws') = KeyTooShort
           ∧ Receiver.await_confirmation K sifted_key check wr = (Ok None, wr')
           ∧ st_status (stat wr') = KeyTooShort)
    ∧ (K ≤ len final →
         ∃ seed_s seed_r ws' wr',
           Sender.decide_key a sifted_key check qber ws =
             (Ok (Some (seed_s, take (Z.to_nat K) final)), ws')
           ∧ st_status (stat ws') = Success
           ∧ Receiver.await_confirmation K sifted_key check wr =
               (Ok (Some (seed_r, take (Z.to_nat K) final)), wr')
           ∧ st_status (stat wr') = Success
           ∧ len (take (Z.to_nat K) final) = K).
Proof.
  intros Hnd Hin HK Hq Hbox K.
  destruct (final_key_bits_ok sifted_key check) as (final & Hfinal & Hbits).
  exists final. split_and!; [done | done | apply kept_positions_spec
                            | apply kept_positions_ascending | | |].
  - unfold bits_at in Hbits. apply Forall2_length in Hbits.
    rewrite <- (length_kept_positions sifted_key check Hnd Hin).
    unfold len. by rewrite Hbits.
  - intros Hshort.
    destruct (decide_key_confirm a sifted_key check qber ws final Hq Hfinal) as [Hs _].
    destruct (await_confirmation_confirm K sifted_key check wr content rest final
                Hbox Hfinal) as [Hr _].
    eexists _, _. rewrite (Hs Hshort), (Hr Hshort). done.
  - intros Hlong.
    destruct (decide_key_confirm a sifted_key check qber ws final Hq Hfinal) as [_ Hs].
    destruct (await_confirmation_confirm K sifted_key check wr content rest final
                Hbox Hfinal) as [_ Hr].
    specialize (Hs Hlong). specialize (Hr Hlong). simpl in Hs, Hr.
    assert (py_slice_to final K = take (Z.to_nat K) final) as Hslice.
    { unfold py_slice_to. by rewrite (proj2 (Z.leb_le 0 K)) by done. }
    fold K in Hs. rewrite Hslice in Hs, Hr.
    eexists _, _, _, _. rewrite Hs, Hr. split_and!; try done.
    rewrite <- Hslice. apply py_slice_to_length. lia.
Qed.
End RoleFacts.

Lemma SFcompare_Eq_sym (a b : spec_float) :
  SFcompare a b = Some Eq → SFcompare b a = Some Eq.
Proof.
  destruct a as [sa | sa | | sa ma ea], b as [sb | sb | | sb mb eb];
    simpl; try done; destruct sa, sb; try done.
  all: destruct (Z.compare_spec ea eb) as [-> | Hlt | Hgt]; try done.
  all: rewrite Z.compare_refl.
  all: change (PosDef.Pos.compare_cont Eq mb ma) with (Pos.compare mb ma).
  all: change (PosDef.Pos.compare_cont Eq ma mb) with (Pos.compare ma mb).
  all: rewrite (Pos.compare_antisym ma mb); by destruct (Pos.compare ma mb).
Qed.

(** Two floats that compare equal are not strictly ordered. *)
Lemma float_eqb_not_ltb (x y : float) :
  PrimFloat.eqb x y = true → PrimFloat.ltb y x = false.
Proof.
  rewrite FloatAxioms.eqb_spec, FloatAxioms.ltb_spec. unfold SFeqb, SFltb.
  destruct (SFcompare (Prim2SF x) (Prim2SF y)) as [[] |] eqn:Hc; try done.
  intros _. by rewrite (SFcompare_Eq_sym _ _ Hc).
Qed.

Lemma check_events_no_past_end (sifted_key : list Z) (check_bits : string)
    (check : list Z) (i : Z) (evs : list Sender.check_event) :
  0 ≤ i → i + len check ≤ str_len check_bits →
  Sender.check_events sifted_key check_bits i check = Ok evs →
  Sender.PastEnd ∉ evs.
Proof.
  revert i evs. induction check as [| idx check IH]; intros i evs Hi Hlen; simpl.
  - intros [= <-]. apply not_elem_of_nil.
  - rewrite len_cons in Hlen. pose proof (len_nonneg check).
    destruct (Sender.check_event_at sifted_key check_bits i idx) as [e |] eqn:He;
      [| done]. simpl.
    destruct (Sender.check_events sifted_key check_bits (i + 1) check) as [es |] eqn:Hes;
      [| done]. simpl. intros [= <-].
    apply not_elem_of_cons. split; [| eapply IH; [| | done]; lia].
    unfold Sender.check_event_at in He.
    destruct (str_getitem_in_range check_bits i) as [c Hc]; [lia |].
    rewrite Hc in He. intros <-. by repeat case_match.
Qed.

Section VerifyFacts.
Context {G : Type} `{PyRandom G}.

Lemma decide_runs (a : Sender.args) (sifted_key check : list Z)
    (check_bits : string) (evs : list Sender.check_event) (w : world G) :
  Sender.check_events sifted_key check_bits 0 check = Ok evs →
  let mismatches := Sender.count_mismatches evs in
  let qber := Sender.qber_of mismatches check in
  Sender.decide a sifted_key check check_bits w =
    Sender.decide_key a sifted_key check qber
      (World (rng w) (inbox w) (outbox w) (quantum_out w)
             (set_qber mismatches qber (stat w))).
Proof.
  intros Hevs. unfold Sender.decide, mbind, M_bind, lift, update_stats.
  by rewrite Hevs.
Qed.

Lemma decide_key_total (a : Sender.args) (sifted_key check : list Z)
    (qber : float) (w : world G) :
  ∃ r w', Sender.decide_key a sifted_key check qber w = (Ok r, w')
          ∧ qber_mismatches (stat w') = qber_mismatches (stat w)
          ∧ qber_estimate (stat w') = qber_estimate (stat w).
Proof.
  destruct (PrimFloat.ltb (Sender.qber_threshold a) qber) eqn:Hq.
  - rewrite decide_key_abort by done. by eexists _, _.
  - destruct (final_key_bits_ok sifted_key check) as (final & Hfinal & _).
    destruct (decide_key_confirm a sifted_key check qber w final Hq Hfinal)
      as [Hshort Hlong].
    destruct (Z.lt_ge_cases (len final) (Sender.key_length a)) as [Hk | Hk].
    + rewrite (Hshort Hk). by eexists _, _.
    + rewrite (Hlong Hk). by eexists _, _.
Qed.


(** C5 (CHECK_BITS length guard).  When the CHECK_BITS payload's length
    differs from the number of requested indices, [await_check_bits] raises a
    [ValueError] whatever follows it, so no bit is compared; the role sends
    its ABORT, records the error and returns no key, the mismatch count
    untouched.  When the lengths agree, the payload is handed on, every
    position [0 .. sample_size - 1] lies inside it, and the counting loop
    never reads past its end. *)
Theorem check_bits_length_guard (a : Sender.args) (sifted_key check : list Z)
    (check_bits : string) (rest : list (option (string * string)))
    (w : world G) :
  inbox w = Some ("CHECK_BITS", check_bits) :: rest →
  (str_len check_bits ≠ len check →
     ∃ e w',
       kind e = ValueError
       ∧ (∀ B (k : string → M G B),
            (Sender.await_check_bits check ≫= k) w = (Raise e, w'))
       ∧ outbox w' = outbox w ∧ stat w' = stat w
       ∧ ∃ w'',
           on_error "Sender"
             (Sender.await_check_bits check ≫= Sender.decide a sifted_key check) w
           = (Ok None, w'')
           ∧ outbox w'' = outbox w ++ [Msg "ABORT" ("Sender Error: " +:+ reason e)]
           ∧ st_status (stat w'') = Error e
           ∧ qber_mismatches (stat w'') = qber_mismatches (stat w)) ∧
  (str_len check_bits = len check →
     Sender.await_check_bits check w =
       (Ok check_bits, World (rng w) rest (outbox w) (quantum_out w) (stat w))
     ∧ (∀ k, 0 ≤ k < len check → is_Some (str_getitem check_bits k))
     ∧ (∀ evs, Sender.check_events sifted_key check_bits 0 check = Ok evs →
               Sender.PastEnd ∉ evs)).
Proof.
  intros Hbox. split; intros Hlen.
  - assert (∃ e w', kind e = ValueError ∧ outbox w' = outbox w ∧ stat w' = stat w
              ∧ Sender.await_check_bits check w = (Raise e, w')) as (e & w' & Hk & Ho & Hs & Ha).
    { unfold Sender.await_check_bits, expect_message, mbind, M_bind, receive.
      rewrite Hbox. simpl. rewrite bool_decide_eq_true_2 by done. unfold raise.
      eexists (Exn ValueError _), (World (rng w) rest (outbox w) (quantum_out w) (stat w)).
      split_and!; [done | done | done | reflexivity]. }
    exists e, w'. split_and!; try done.
    + intros B k. unfold mbind, M_bind. by rewrite Ha.
    + unfold on_error. unfold mbind at 1, M_bind at 1. rewrite Ha.
      unfold mbind, M_bind, update_stats, send. simpl.
      eexists. split_and!; [done | simpl; by rewrite Ho | done | simpl; by rewrite Hs].
  - split_and!.
    + unfold Sender.await_check_bits, expect_message, mbind, M_bind, receive.
      rewrite Hbox. simpl. by rewrite bool_decide_eq_false_2 by (intros ?; done).
    + intros k Hk. apply str_getitem_in_range. lia.
    + intros evs. apply check_events_no_past_end; lia.
Qed.

(** C3 (QBER decision boundary).  In DECIDE the error rate is
    [mismatches / sample_size], in binary64.  The sender returns no key with
    ABORT("QBER_HIGH") sent and status "QBER Fail" if and only if the error
    rate is strictly greater than the threshold; otherwise CONFIRM_KEY is
    what it sends.  An error rate equal to the threshold is accepted. *)
Theorem qber_decision_boundary (a : Sender.args) (sifted_key check : list Z)
    (check_bits : string) (w : world G) :
  check ≠ [] →
  (∀ i, i ∈ check → 0 ≤ i < len sifted_key) →
  str_len check_bits = len check →
  ∃ evs r w',
    Sender.check_events sifted_key check_bits 0 check = Ok evs
    ∧ Sender.decide a sifted_key check check_bits w = (Ok r, w')
    ∧ let error_rate := truediv (Sender.count_mismatches evs) (len check) in
      let threshold := Sender.qber_threshold a in
      qber_estimate (stat w') = error_rate
      ∧ (PrimFloat.ltb threshold error_rate = true ↔
           r = None
           ∧ outbox w' = outbox w ++ [Msg "ABORT" "QBER_HIGH"]
           ∧ st_status (stat w') = QBERFail)
      ∧ (PrimFloat.ltb threshold error_rate = false ↔
           outbox w' = outbox w ++ [Msg "CONFIRM_KEY" "OK"])
      ∧ (PrimFloat.eqb error_rate threshold = true →
           outbox w' = outbox w ++ [Msg "CONFIRM_KEY" "OK"]).
Proof.
  intros Hne Hin Hlen.
  destruct (check_events_judged sifted_key check_bits check 0)
    as (evs & Hevs & _ & _); [lia | done | lia |].
  pose proof (decide_runs a sifted_key check check_bits evs w Hevs) as Hrun.
  simpl in Hrun. unfold Sender.qber_of in Hrun.
  rewrite bool_decide_eq_false_2 in Hrun by done.
  set (q := truediv (Sender.count_mismatches evs) (len check)) in *.
  set (w0 := World (rng w) (inbox w) (outbox w) (quantum_out w)
               (set_qber (Sender.count_mismatches evs) q (stat w))) in *.
  destruct (decide_key_total a sifted_key check q w0) as (r & w' & Hd & _ & Hest).
  exists evs, r, w'. split_and!; [done | by rewrite Hrun |].
  cbv zeta. fold q. split_and!; [by rewrite Hest | | |].
  - destruct (PrimFloat.ltb (Sender.qber_threshold a) q) eqn:Hq.
    + rewrite decide_key_abort in Hd by done. injection Hd as <- <-. done.
    + split; [done |]. intros (_ & Hout & _).
      destruct (final_key_bits_ok sifted_key check) as (final & Hfinal & _).
      destruct (decide_key_confirm a sifted_key check q w0 final Hq Hfinal)
        as [Hshort Hlong].
      destruct (Z.lt_ge_cases (len final) (Sender.key_length a)) as [Hk | Hk].
      * rewrite (Hshort Hk) in Hd. injection Hd as <- <-. simpl in Hout.
        apply app_inv_head in Hout. done.
      * rewrite (Hlong Hk) in Hd. injection Hd as <- <-. simpl in Hout.
        apply app_inv_head in Hout. done.
  - destruct (PrimFloat.ltb (Sender.qber_threshold a) q) eqn:Hq.
    + rewrite decide_key_abort in Hd by done. injection Hd as <- <-.
      split; [done |]. simpl. intros Hout. apply app_inv_head in Hout. done.
    + split; [| done]. intros _.
      destruct (final_key_bits_ok sifted_key check) as (final & Hfinal & _).
      destruct (decide_key_confirm a sifted_key check q w0 final Hq Hfinal)
        as [Hshort Hlong].
      destruct (Z.lt_ge_cases (len final) (Sender.key_length a)) as [Hk | Hk].
      * rewrite (Hshort Hk) in Hd. by injection Hd as <- <-.
      * rewrite (Hlong Hk) in Hd. by injection Hd as <- <-.
  - intros Heq. apply float_eqb_not_ltb in Heq.
    destruct (final_key_bits_ok sifted_key check) as (final & Hfinal & _).
    destruct (decide_key_confirm a sifted_key check q w0 final Heq Hfinal)
      as [Hshort Hlong].
    destruct (Z.lt_ge_cases (len final) (Sender.key_length a)) as [Hk | Hk].
    + rewrite (Hshort Hk) in Hd. by injection Hd as <- <-.
    + rewrite (Hlong Hk) in Hd. by injection Hd as <- <-.
Qed.
End VerifyFacts.

(** ** The receiver's answer to the check indices *)








Section AnswerFacts.
Context {G : Type} `{PyRandom G}.

End AnswerFacts.

(** ** Sifting *)


Section SiftFacts.
Context {G : Type} `{PyRandom G}.

Lemma send_loop_consistent (bits bases : list Z) (loss : float) (n s : nat)
    (st : Sender.sent_state) (w : world G) (q0 ph : list (Z * Z)) :
  (s + n ≤ length bits)%nat → (s + n ≤ length bases)%nat →
  (∀ j, j ∈ Sender.photons_sent_indices st → j < Z.of_nat s) →
  consistent st ph → quantum_out w = q0 ++ ph →
  ∃ st' w' ph',
    Sender.send_loop bits bases loss st (Z.of_nat <$> seq s n) w = (Ok st', w')
    ∧ consistent st' ph' ∧ quantum_out w' = q0 ++ ph'
    ∧ inbox w' = inbox w ∧ outbox w' = outbox w ∧ stat w' = stat w.
Proof.
  revert s st w ph. induction n as [| n IH]; intros s st w ph Hbits Hbases Hfresh Hcons Hq.
  - exists st, w, ph. by split_and!.
  - simpl. unfold mbind at 1, M_bind at 1.
    unfold Sender.send_one at 1. unfold mbind at 1, M_bind at 1, with_rng.
    destruct (rnd_random (rng w)) as [r g'].
    destruct (PrimFloat.leb loss r).
    + rewrite !py_getitem_of_nat.
      destruct (lookup_lt_is_Some_2 bases s) as [basis Hbasis]; [lia |].
      destruct (lookup_lt_is_Some_2 bits s) as [bit Hbit]; [lia |].
      rewrite Hbasis, Hbit. unfold mbind, M_bind, send_photon, mret, M_ret, ret.
      world_simpl.
      match goal with |- context [Sender.send_loop _ _ _ ?st1 _ ?w1] =>
        destruct (IH (S s) st1 w1 (ph ++ [(basis, bit)])) as (st' & w' & ph' & Hrun & ?)
      end; [lia | lia | | | | ].
      * simpl. intros j [Hj | ->%list_elem_of_singleton]%elem_of_app; [| lia].
        specialize (Hfresh j Hj). lia.
      * unfold consistent in *. simpl. apply Forall2_app.
        -- apply Forall2_same_length_lookup. split; [by eapply Forall2_length |].
           intros k i p Hi Hp.
           destruct (Forall2_lookup_lr _ _ _ _ _ _ Hcons Hi Hp) as [Hb1 Hb2].
           assert (i < Z.of_nat s) by (by eapply Hfresh, list_elem_of_lookup_2).
           rewrite !lookup_insert_ne by lia. done.
        -- constructor; [| constructor]. simpl. by rewrite !lookup_insert_eq.
      * world_simpl. by rewrite Hq, app_assoc.
      * exists st', w', ph'. destruct_and!. by split_and!.
    + unfold mret, M_ret, ret.
      destruct (IH (S s) st (World g' (inbox w) (outbox w) (quantum_out w) (stat w)) ph)
        as (st' & w' & ph' & Hrun & ?); [lia | lia | | done | done |].
      * intros j Hj. specialize (Hfresh j Hj). lia.
      * exists st', w', ph'. destruct_and!. by split_and!.
Qed.

Lemma send_photons_consistent (count : Z) (bits bases : list Z) (loss : float)
    (w : world G) :
  len bits = count → len bases = count →
  ∃ st w' ph,
    Sender.send_photons count bits bases loss w = (Ok st, w')
    ∧ consistent st ph ∧ quantum_out w' = quantum_out w ++ ph
    ∧ inbox w' = inbox w ∧ outbox w' = outbox w ∧ stat w' = stat w.
Proof.
  intros Hbits Hbases. unfold Sender.send_photons, range.
  destruct (send_loop_consistent bits bases loss (Z.to_nat count) 0
              (Sender.SentState [] ∅ ∅) w (quantum_out w) [])
    as (st & w' & ph & ?); unfold len in *; [lia | lia | | constructor | | ].
  - intros j Hj. by apply elem_of_nil in Hj.
  - by rewrite app_nil_r.
  - by exists st, w', ph.
Qed.

Lemma measure_photon_rule (s_basis s_bit : Z) (g : G) :
  measurement_rule (s_basis, s_bit) (Receiver.measure_photon s_basis s_bit g).1.
Proof.
  unfold Receiver.measure_photon, measurement_rule.
  destruct (Random.randint 0 1 g) as [b g1]. case_bool_decide; [done |].
  destruct (Random.randint 0 1 g1) as [m g2]. simpl. intros. congruence.
Qed.

Lemma receive_photons_rule (photons : list (Z * Z)) (g : G) :
  Forall2 measurement_rule photons (Receiver.receive_photons photons g).1.
Proof.
  revert g. induction photons as [| [s_basis s_bit] photons IH]; intros g; simpl;
    [constructor |].
  pose proof (measure_photon_rule s_basis s_bit g) as Hm.
  destruct (Receiver.measure_photon s_basis s_bit g) as [info g1].
  specialize (IH g1). destruct (Receiver.receive_photons photons g1) as [infos g2].
  by constructor.
Qed.
End SiftFacts.

Section SiftingSymmetry.
Context {G : Type} `{PyRandom G}.


Lemma sift_matches (st : Sender.sent_state) (ph : list (Z * Z))
    (info : list Receiver.photon_info) :
  consistent st ph → length info = length ph →
  ∃ matches,
    Sender.sift st (Receiver.bob_bases_sent info) = Ok matches
    ∧ ∀ j, j ∈ matches ↔ bases_agree ph info j.
Proof.
  intros Hcons Hlen. pose proof (Forall2_length _ _ _ Hcons) as Hidx.
  set (f := λ j : Z,
         match ph !! Z.to_nat j, info !! Z.to_nat j with
         | Some p, Some inf =>
             if bool_decide (p.1 = Receiver.bob_basis inf) then Some j else None
         | _, _ => None
         end).
  assert (Z.min (len (Receiver.bob_bases_sent info))
                (len (Sender.photons_sent_indices st)) = len ph) as Hmin.
  { unfold len, Receiver.bob_bases_sent. rewrite length_fmap. lia. }
  exists (omap f (range (len ph))). split.
  - unfold Sender.sift. rewrite Hmin. apply collect_total.
    intros j [Hj Hl]%elem_of_range. unfold len in Hl.
    rewrite !py_getitem_nonneg by done.
    destruct (lookup_lt_is_Some_2 ph (Z.to_nat j)) as [p Hp]; [lia |].
    destruct (lookup_lt_is_Some_2 info (Z.to_nat j)) as [inf Hinf]; [lia |].
    destruct (lookup_lt_is_Some_2 (Sender.photons_sent_indices st) (Z.to_nat j))
      as [oi Hoi]; [lia |].
    destruct (Forall2_lookup_lr _ _ _ _ _ _ Hcons Hoi Hp) as [Hbasis _].
    unfold Receiver.bob_bases_sent. rewrite Hoi, Hbasis, list_lookup_fmap, Hinf.
    simpl. unfold f. by rewrite Hp, Hinf.
  - intros j. rewrite list_elem_of_omap. unfold bases_agree. split.
    + intros (y & [Hy Hl]%elem_of_range & Hf). unfold f in Hf.
      destruct (ph !! Z.to_nat y) as [p |] eqn:Hp; [| done].
      destruct (info !! Z.to_nat y) as [inf |] eqn:Hinf; [| done].
      case_bool_decide; [| done]. injection Hf as <-.
      split; [done |]. by exists p, inf.
    + intros (Hj & p & inf & Hp & Hinf & Hagree). exists j. split.
      * apply elem_of_range. apply lookup_lt_Some in Hp. unfold len. lia.
      * unfold f. rewrite Hp, Hinf. by rewrite bool_decide_eq_true_2.
Qed.

Lemma sifted_keys_equal (st : Sender.sent_state) (ph : list (Z * Z))
    (info : list Receiver.photon_info) (matches : list Z) :
  consistent st ph → Forall2 measurement_rule ph info →
  (∀ j, j ∈ matches → bases_agree ph info j) →
  ∃ key,
    Sender.sifted_sender_key st matches = Ok key
    ∧ Receiver.sifted_receiver_key info matches = Ok key
    ∧ length key = length matches.
Proof.
  intros Hcons Hrule Hm. pose proof (Forall2_length _ _ _ Hcons) as Hidx.
  pose proof (Forall2_length _ _ _ Hrule) as Hlen.
  set (g := λ j : Z, snd <$> ph !! Z.to_nat j).
  exists (omap g matches). split_and!.
  - unfold Sender.sifted_sender_key. apply collect_total.
    intros j (Hj & p & inf & Hp & Hinf & Hagree)%Hm.
    pose proof (lookup_lt_Some _ _ _ Hp) as Hlt.
    rewrite (proj2 (Z.ltb_lt j _)) by (unfold len; lia).
    rewrite py_getitem_nonneg by done.
    destruct (lookup_lt_is_Some_2 (Sender.photons_sent_indices st) (Z.to_nat j))
      as [oi Hoi]; [lia |].
    destruct (Forall2_lookup_lr _ _ _ _ _ _ Hcons Hoi Hp) as [_ Hbit].
    rewrite Hoi, Hbit. unfold g. by rewrite Hp.
  - unfold Receiver.sifted_receiver_key. apply collect_total.
    intros j (Hj & p & inf & Hp & Hinf & Hagree)%Hm.
    pose proof (lookup_lt_Some _ _ _ Hinf) as Hlt.
    rewrite (proj2 (Z.ltb_lt j _)) by (unfold len; lia).
    rewrite py_getitem_nonneg by done. rewrite Hinf.
    pose proof (Forall2_lookup_lr _ _ _ _ _ _ Hrule Hp Hinf) as Hmeasured.
    unfold g. rewrite Hp. simpl. by rewrite Hmeasured.
  - assert (∀ l, (∀ j, j ∈ l → is_Some (g j)) → length (omap g l) = length l) as Hgen.
    { induction l as [| j l IH]; intros Hl; [done |]. simpl.
      destruct (Hl j) as [b ->]; [left |]. simpl. f_equal. apply IH.
      intros j' Hj'. apply Hl. by right. }
    apply Hgen. intros j (_ & p & _ & Hp & _)%Hm. unfold g. rewrite Hp. by eexists.
Qed.

(** C1 (sifting symmetry).  For all bits and bases of the initiator and all
    loss draws, let the receiver's [j]-th photon be the [j]-th photon sent,
    measured by the rule "same basis, same bit" (which [receive_photons]
    obeys for every state of the receiver's generator).  Then sifting
    succeeds on both sides, the match indices are exactly the positions where
    the bases agree, and the sender's sifted key (through
    [photons_sent_indices] and the bit dictionary) equals the receiver's
    (its measured bits at the same indices), bit for bit and in length. *)
Theorem sifting_symmetry (count : Z) (bits bases : list Z) (loss : float)
    (w : world G) :
  len bits = count → len bases = count → quantum_out w = [] →
  ∃ st w',
    Sender.send_photons count bits bases loss w = (Ok st, w')
    ∧ (∀ g : G,
         Forall2 measurement_rule (quantum_out w')
                 (Receiver.receive_photons (quantum_out w') g).1)
    ∧ ∀ info : list Receiver.photon_info,
        Forall2 measurement_rule (quantum_out w') info →
        ∃ matches alice_key bob_key,
          Sender.sift st (Receiver.bob_bases_sent info) = Ok matches
          ∧ (∀ j, j ∈ matches ↔ bases_agree (quantum_out w') info j)
          ∧ Sender.sifted_sender_key st matches = Ok alice_key
          ∧ Receiver.sifted_receiver_key info matches = Ok bob_key
          ∧ alice_key = bob_key
          ∧ len alice_key = len bob_key.
Proof.
  intros Hbits Hbases Hq.
  destruct (send_photons_consistent count bits bases loss w Hbits Hbases)
    as (st & w' & ph & Hsend & Hcons & Hout & _).
  rewrite Hq in Hout. simpl in Hout.
  exists st, w'. split_and!; [done | intros g; apply receive_photons_rule |].
  intros info Hrule. rewrite Hout in Hrule |- *.
  destruct (sift_matches st ph info Hcons) as (matches & Hsift & Hm);
    [symmetry; by eapply Forall2_length |].
  destruct (sifted_keys_equal st ph info matches Hcons Hrule) as (key & Hs & Hr & _).
  { intros j Hj. by apply Hm. }
  exists matches, key, key. by split_and!.
Qed.
End SiftingSymmetry.

(** ** The small generator satisfies the interface *)


Lemma lcg_randbelow_range n g : 0 < n → 0 ≤ (Lcg.randbelow n g).1 < n.
Proof. intros Hn. simpl. by apply Z.mod_pos_bound. Qed.

Lemma lcg_sample_length n k g : 0 ≤ k ≤ n → length (Lcg.sample n k g).1 = Z.to_nat k.
Proof. intros _. simpl. by rewrite length_fmap, length_range. Qed.

Lemma shift_mod_inj (n r x y : Z) :
  0 ≤ x < n → 0 ≤ y < n → (r + x) mod n = (r + y) mod n → x = y.
Proof.
  intros Hx Hy Heq.
  assert ((x - y) mod n = 0) as Hd.
  { replace (x - y) with ((r + x) - (r + y)) by lia.
    rewrite Zminus_mod, Heq, Z.sub_diag. apply Z.mod_0_l. lia. }
  apply Z.mod_divide in Hd; [| lia]. destruct Hd as [q Hq].
  assert (q = 0) by nia. lia.
Qed.

Lemma lcg_sample_NoDup n k g : 0 ≤ k ≤ n → NoDup (Lcg.sample n k g).1.
Proof.
  intros Hk. simpl. apply NoDup_fmap_2_strong; [| apply NoDup_range].
  intros x y Hx%elem_of_range Hy%elem_of_range. apply shift_mod_inj; lia.
Qed.

Lemma lcg_sample_range n k g x : 0 ≤ k ≤ n → x ∈ (Lcg.sample n k g).1 → 0 ≤ x < n.
Proof.
  intros Hk. simpl. intros (i & -> & Hi%elem_of_range)%list_elem_of_fmap.
  apply Z.mod_pos_bound. lia.
Qed.

#[global] Instance lcg_generator : PyRandom Z := {|
  rnd_seed := λ seed, seed mod 2 ^ 31;
  rnd_randbelow := Lcg.randbelow;
  rnd_random := Lcg.random;
  rnd_sample := Lcg.sample;
  rnd_randbelow_range := lcg_randbelow_range;
  rnd_sample_length := lcg_sample_length;
  rnd_sample_NoDup := lcg_sample_NoDup;
  rnd_sample_range := lcg_sample_range
|}.



(** C4 as stated: with the second attempt [sifted_len // 2], a sifted key of
    one bit would get a sample of size 0 and no abort; the code aborts. *)
Lemma sample_sizing_as_stated_fails :
  ¬ (∀ (sifted_key : list Z) (K : Z) (w : world Z),
       sifted_key ≠ [] →
       match check_len_as_stated (len sifted_key) K with
       | Some size =>
           ∃ check w', Sender.propose sifted_key K w = (Ok check, w')
                       ∧ len check = size
       | None => ∃ e, Sender.propose sifted_key K w = (Raise e, w)
       end).
Proof.
  intros Hclaim.
  destruct (Hclaim [1] 16 (Lcg.world_of 1 [])) as (check & w' & Hrun & _); [done |].
  vm_compute in Hrun. discriminate Hrun.
Qed.

(** ** The model at work *)


Example sha256_abc :
  int_from_bytes_big (Sha256.sha256 (encode "abc")) =
  0xba7816bf8f01cfea414140de5dae2223b00361a396177a9cb410ff61f20015ad.
Proof. vm_compute. reflexivity. Qed.

Example sha256_empty :
  int_from_bytes_big (Sha256.sha256 []) =
  0xe3b0c44298fc1c149afbf4c8996fb92427ae41e4649b934ca495991b7852b855.
Proof. vm_compute. reflexivity. Qed.

Example sha256_two_blocks :
  int_from_bytes_big (Sha256.sha256
    (encode "abcdbcdecdefdefgefghfghighijhijkijkljklmklmnlmnomnopnopq")) =
  0x248d6a61d20638b8e5c026930c3e6039a33ce45964ff2167f6ecedd419db06c1.
Proof. vm_compute. reflexivity. Qed.

Example derive_seed_16_bits (g : Z) :
  Utils.derive_seed_from_key [1; 0; 1; 1; 0; 0; 1; 0; 1; 1; 1; 0; 0; 1; 0; 1] g
  = (1182668294, g).
Proof. vm_compute. reflexivity. Qed.

Example derive_seed_short_key_is_random :
  (Utils.derive_seed_from_key [1; 0; 1] (0 : Z)).1 ≠
  (Utils.derive_seed_from_key [1; 0; 1] (5 : Z)).1.
Proof. vm_compute. discriminate. Qed.

Example pattern_of_seed_42 (g : Z) :
  Utils.generate_hopping_pattern 42 5 [881; 905; 923] g
  = (Ok [905; 923; 923; 881; 923], g).
Proof. vm_compute. reflexivity. Qed.

Example check_len_of_one_bit :
  is_ok (Sender.choose_check_len 1 16) = false ∧ check_len_as_stated 1 16 = Some 0.
Proof. split; reflexivity. Qed.

Example check_len_of_64_bits : Sender.choose_check_len 64 16 = Ok 16.
Proof. reflexivity. Qed.

Example slice_negative_length : py_slice_to [1; 0; 1] (-1) = [1; 0].
Proof. reflexivity. Qed.


Example three_of_twenty_confirmed :
  let '(r, w') := Sender.decide default_args forty_zeros (range 20) three_of_twenty
                    (Lcg.world_of 1 []) in
  outbox w' = [Msg "CONFIRM_KEY" "OK"]
  ∧ qber_mismatches (stat w') = 3
  ∧ qber_estimate (stat w') = threshold_15
  ∧ st_status (stat w') = Success.
Proof. vm_compute. by split_and!. Qed.

Example four_of_twenty_aborted :
  let '(r, w') := Sender.decide default_args forty_zeros (range 20) four_of_twenty
                    (Lcg.world_of 1 []) in
  r = Ok None
  ∧ outbox w' = [Msg "ABORT" "QBER_HIGH"]
  ∧ qber_mismatches (stat w') = 4
  ∧ st_status (stat w') = QBERFail.
Proof. vm_compute. by split_and!. Qed.

(** *** Instances of the theorems *)

Lemma sifting_symmetry_witness :
  ∃ st w' matches key,
    Sender.send_photons 6 [1; 0; 1; 1; 0; 1] [0; 1; 1; 0; 0; 1] 0.5%float
                        (Lcg.world_of 7 []) = (Ok st, w')
    ∧ Sender.sift st (Receiver.bob_bases_sent
                        (Receiver.receive_photons (quantum_out w') (3 : Z)).1)
      = Ok matches
    ∧ Sender.sifted_sender_key st matches = Ok key
    ∧ Receiver.sifted_receiver_key
        (Receiver.receive_photons (quantum_out w') (3 : Z)).1 matches = Ok key.
Proof.
  destruct (sifting_symmetry 6 [1; 0; 1; 1; 0; 1] [0; 1; 1; 0; 0; 1] 0.5%float
              (Lcg.world_of 7 []))
    as (st & w' & Hsend & Hrule & Hkeys); [reflexivity | reflexivity | reflexivity |].
  destruct (Hkeys _ (Hrule 3)) as (matches & ka & kb & Hs & _ & Ha & Hb & <- & _).
  by exists st, w', matches, ka.
Defined.

Lemma final_key_construction_witness :
  final_key_bits [1; 0; 1; 1; 0; 1; 0; 0] [1; 4] = Ok [1; 1; 1; 1; 0; 0]
  ∧ ∃ seed ws',
      Sender.decide_key (Sender.Args 40 4 0 threshold_15)
                        [1; 0; 1; 1; 0; 1; 0; 0] [1; 4] 0 (Lcg.world_of 1 [])
      = (Ok (Some (seed, [1; 1; 1; 1])), ws').
Proof.
  destruct (final_key_construction [1; 0; 1; 1; 0; 1; 0; 0] [1; 4]
              (Sender.Args 40 4 0 threshold_15) 0 "OK" []
              (Lcg.world_of 1 []) (Lcg.world_of 2 [Some ("CONFIRM_KEY", "OK")]))
    as (final & Hfinal & _ & _ & _ & _ & _ & Hlong).
  - by apply (bool_decide_unpack _).
  - intros i [-> | [-> | Hi%elem_of_nil]%elem_of_cons]%elem_of_cons;
      [by vm_compute | by vm_compute | done].
  - by vm_compute.
  - reflexivity.
  - reflexivity.
  - assert (final = [1; 1; 1; 1; 0; 0]) as -> by (vm_compute in Hfinal; by injection Hfinal as <-).
    split; [reflexivity |].
    destruct Hlong as (seed_s & _ & ws' & _ & Hs & _); [by vm_compute |].
    by exists seed_s, ws'.
Defined.

Lemma qber_decision_boundary_witness :
  ∃ r w',
    Sender.decide default_args forty_zeros (range 20) three_of_twenty
                  (Lcg.world_of 1 []) = (Ok r, w')
    ∧ qber_estimate (stat w') = Sender.qber_threshold default_args
    ∧ outbox w' = [Msg "CONFIRM_KEY" "OK"].
Proof.
  destruct (qber_decision_boundary default_args forty_zeros (range 20)
              three_of_twenty (Lcg.world_of 1 []))
    as (evs & r & w' & Hevs & Hd & Hest & _ & _ & Heq).
  - discriminate.
  - intros i Hi%elem_of_range. change (len forty_zeros) with 40. lia.
  - reflexivity.
  - assert (evs = [Sender.Differ; Sender.Differ; Sender.Differ] ++
                  replicate 17 Sender.Agree) as ->
      by (vm_compute in Hevs; by injection Hevs as <-).
    exists r, w'. split_and!; [done | by rewrite Hest | by apply Heq].
Defined.

Lemma check_bits_length_guard_witness :
  ∃ w'',
    on_error "Sender"
      (Sender.await_check_bits [0; 2; 5] ≫=
         Sender.decide default_args [1; 0; 1; 1; 0; 1; 0; 0] [0; 2; 5])
      (Lcg.world_of 1 [Some ("CHECK_BITS", "01")]) = (Ok None, w'')
    ∧ ∃ e, st_status (stat w'') = Error e ∧ kind e = ValueError.
Proof.
  destruct (check_bits_length_guard default_args [1; 0; 1; 1; 0; 1; 0; 0]
              [0; 2; 5] "01" [] (Lcg.world_of 1 [Some ("CHECK_BITS", "01")]))
    as [Hbad _]; [reflexivity |].
  destruct Hbad as (e & _ & Hk & _ & _ & _ & w'' & Hrun & _ & Hst & _);
    [by vm_compute |].
  exists w''. split; [done |]. by exists e.
Defined.



Lemma sample_sizing_witness :
  ∃ check w',
    Sender.propose [1; 0; 1; 1; 0; 0; 1; 0; 1; 1; 1; 0; 0; 1; 0; 1] 16
                   (Lcg.world_of 3 []) = (Ok check, w')
    ∧ len check = 4 ∧ NoDup check ∧ Sorted Z.le check.
Proof.
  destruct (sample_sizing [1; 0; 1; 1; 0; 0; 1; 0; 1; 1; 1; 0; 0; 1; 0; 1] 16
              (Lcg.world_of 3 [])) as (_ & _ & Hok).
  destruct Hok as (check & w' & Hrun & _ & Hlen & Hnd & _ & Hsorted);
    [split; [discriminate | by vm_compute] |].
  exists check, w'. by split_and!.
Defined.

Lemma seed_derivation_witness :
  Utils.derive_seed_from_key [1; 0; 1; 1; 0; 0; 1; 0; 1; 1; 1; 0; 0; 1; 0; 1] (9 : Z)
  = (seed_of_bits [1; 0; 1; 1; 0; 0; 1; 0; 1; 1; 1; 0; 0; 1; 0; 1], 9).
Proof.
  destruct (seed_derivation [1; 0; 1; 1; 0; 0; 1; 0; 1; 1; 1; 0; 0; 1; 0; 1] (9 : Z))
    as (_ & Hlong & _).
  destruct Hlong as [Hseed _]; [by vm_compute | | exact Hseed].
  repeat (constructor; [by (left + right) |]). constructor.
Defined.

Lemma pattern_shape_witness :
  ∃ pattern,
    Utils.generate_hopping_pattern 42 5 [881; 905; 923] (0 : Z) = (Ok pattern, 0)
    ∧ len pattern = 5.
Proof.
  destruct (pattern_shape 42 5 [881; 905; 923] (0 : Z)) as (_ & Hok).
  destruct Hok as (pattern & Hrun & Hlen & _); [split; [discriminate | lia] |].
  by exists pattern.
Defined.
